(** * armiarma: peer metrics and the batched PostgreSQL persister

    A shallow embedding of two Go sources of the crawler:

    - [src/metrics/peer.go] (package [metrics]): the per-peer bookkeeping
      record and its connection and message counters;
    - the [postgresql] package file defining [DBClient]: the constructor
      [NewDBClient], the background loop [launchPersister] with its three
      closures ([isReadyToPersistFn], [batchQueryFn], [persistBatchFn]) and
      [Close].

    Go values are modelled as follows.  A [uint64] is an [N] with the
    wrap-around of [+= 1] and [++] written out ([wrap64]).  A Go [error] is
    its message, [nil] being [None].  A [map[string]*T] is a [gmap] from
    strings to optional values, the [None] value standing for a stored [nil]
    pointer.  Channels are the list of buffered elements.  The persister
    goroutine is a step function over an explicit program counter; the
    scheduler and the run-time choice of a [select] among several ready
    cases are an explicit list of actions. *)

From stdpp Require Import gmap strings list.

(** ** Package [metrics] *)

Module metrics.

(** [uint64] arithmetic. *)
Definition wrap64 (n : N) : N := (n mod 2 ^ 64)%N.

Definition maxUint64 : N := (2 ^ 64 - 1)%N.

(** [time.Time], as a count of nanoseconds; the zero value is [0]. *)
Definition Time := Z.

(** Information regarding the messages received on a given topic. *)
Record MessageMetric := {
  Count : N;
  FirstMessageTime : Time;
  LastMessageTime : Time
}.

(** The two helpers of the [metrics/utils] package the methods below call.
    Their sources are not part of the embedded files, they are kept
    abstract. *)
Class Utils := {
  FilterError : string -> string;
  ShortToFullTopicName : string -> string
}.

(** The fields of [Peer] that the embedded methods read or write.  The
    descriptive fields filled by [FetchHostInfo] (user agent, client,
    addresses, location, latency, beacon status) are left out: none of the
    methods below touches them. *)
Record Peer := {
  PeerId : string;
  ConnectedDirection : string;
  IsConnected : bool;
  Attempted : bool;
  Succeed : bool;
  Attempts : N;
  Error : string;
  ConnectionTimes : list Time;
  DisconnectionTimes : list Time;
  MetadataRequest : bool;
  MetadataSucceed : bool;
  LastExport : Z;
  MessageMetrics : gmap string (option MessageMetric)
}.

Definition NewPeer (peerId : string) : Peer :=
  {| PeerId := peerId;
     ConnectedDirection := "";
     IsConnected := false;
     Attempted := false;
     Succeed := false;
     Attempts := 0;
     Error := "None";
     ConnectionTimes := [];
     DisconnectionTimes := [];
     MetadataRequest := false;
     MetadataSucceed := false;
     LastExport := 0;
     MessageMetrics := ∅ |}.

(** Field updates, one per assigned field. *)
Definition set_connection (pm : Peer) (times : list Time) (connected : bool)
    (direction : string) : Peer :=
  {| PeerId := PeerId pm;
     ConnectedDirection := direction;
     IsConnected := connected;
     Attempted := Attempted pm;
     Succeed := Succeed pm;
     Attempts := Attempts pm;
     Error := Error pm;
     ConnectionTimes := times;
     DisconnectionTimes := DisconnectionTimes pm;
     MetadataRequest := MetadataRequest pm;
     MetadataSucceed := MetadataSucceed pm;
     LastExport := LastExport pm;
     MessageMetrics := MessageMetrics pm |}.

Definition set_disconnection (pm : Peer) (times : list Time) (connected : bool)
    (direction : string) : Peer :=
  {| PeerId := PeerId pm;
     ConnectedDirection := direction;
     IsConnected := connected;
     Attempted := Attempted pm;
     Succeed := Succeed pm;
     Attempts := Attempts pm;
     Error := Error pm;
     ConnectionTimes := ConnectionTimes pm;
     DisconnectionTimes := times;
     MetadataRequest := MetadataRequest pm;
     MetadataSucceed := MetadataSucceed pm;
     LastExport := LastExport pm;
     MessageMetrics := MessageMetrics pm |}.

Definition set_attempt (pm : Peer) (attempts : N) (attempted succeed : bool)
    (err : string) : Peer :=
  {| PeerId := PeerId pm;
     ConnectedDirection := ConnectedDirection pm;
     IsConnected := IsConnected pm;
     Attempted := attempted;
     Succeed := succeed;
     Attempts := attempts;
     Error := err;
     ConnectionTimes := ConnectionTimes pm;
     DisconnectionTimes := DisconnectionTimes pm;
     MetadataRequest := MetadataRequest pm;
     MetadataSucceed := MetadataSucceed pm;
     LastExport := LastExport pm;
     MessageMetrics := MessageMetrics pm |}.

Definition set_dynamic (pm : Peer) (attempts : N)
    (metrics : gmap string (option MessageMetric)) : Peer :=
  {| PeerId := PeerId pm;
     ConnectedDirection := ConnectedDirection pm;
     IsConnected := IsConnected pm;
     Attempted := Attempted pm;
     Succeed := Succeed pm;
     Attempts := attempts;
     Error := Error pm;
     ConnectionTimes := ConnectionTimes pm;
     DisconnectionTimes := DisconnectionTimes pm;
     MetadataRequest := MetadataRequest pm;
     MetadataSucceed := MetadataSucceed pm;
     LastExport := LastExport pm;
     MessageMetrics := metrics |}.

Definition ResetDynamicMetrics (pm : Peer) : Peer :=
  set_dynamic pm 0 ∅.

(** Register when a new connection was detected. *)
Definition ConnectionEvent (pm : Peer) (direction : string) (time : Time) : Peer :=
  set_connection pm (ConnectionTimes pm ++ [time]) true direction.

(** Register when a disconnection was detected. *)
Definition DisconnectionEvent (pm : Peer) (time : Time) : Peer :=
  set_disconnection pm (DisconnectionTimes pm ++ [time]) false "".

(** Register when a connection attempt was made. *)
Definition ConnectionAttemptEvent `{Utils} (pm : Peer) (succeed : bool)
    (err : string) : Peer :=
  let attempts := wrap64 (Attempts pm + 1) in
  let attempted := if negb (Attempted pm) then true else Attempted pm in
  if succeed
  then set_attempt pm attempts attempted true "None"
  else set_attempt pm attempts attempted (Succeed pm) (FilterError err).

(** [m[k]] on a [map[string]*MessageMetric]: the stored pointer, [nil] when
    the key is absent (also on a [nil] map, which reads as the empty one). *)
Definition index (m : gmap string (option MessageMetric)) (k : string)
    : option MessageMetric :=
  match m !! k with
  | Some ptr => ptr
  | None => None
  end.

(** Count the messages we get per topic and its first/last timestamps. *)
Definition MessageEvent (pm : Peer) (topicName : string) (time : Time) : Peer :=
  let created :=
    match index (MessageMetrics pm) topicName with
    | None => {| Count := 0; FirstMessageTime := time; LastMessageTime := 0%Z |}
    | Some mm => mm
    end in
  let stamped :=
    {| Count := Count created;
       FirstMessageTime := FirstMessageTime created;
       LastMessageTime := time |} in
  let counted :=
    {| Count := wrap64 (Count stamped + 1);
       FirstMessageTime := FirstMessageTime stamped;
       LastMessageTime := LastMessageTime stamped |} in
  set_dynamic pm (Attempts pm) (<[topicName := Some counted]> (MessageMetrics pm)).

(** Get the number of messages that we got for a given topic. *)
Definition GetNumOfMsgFromTopic `{Utils} (pm : Peer) (shortTopic : string) : N :=
  let msgMetric := index (MessageMetrics pm) (ShortToFullTopicName shortTopic) in
  match msgMetric with
  | Some mm => Count mm
  | None => 0%N
  end.

(** No message of the topic has been recorded: the map has no metric for
    it, the key being absent or bound to a [nil] pointer. *)
Definition noMessageRecorded (pm : Peer) (topicName : string) : Prop :=
  index (MessageMetrics pm) topicName = None.

(** The helpers instantiated to leave error strings and topic names as
    they are, to run the methods on concrete peers. *)
Definition plainUtils : Utils :=
  {| FilterError := fun err => err; ShortToFullTopicName := fun topic => topic |}.

(** A peer whose attempt counter holds the largest [uint64]. *)
Definition saturatedPeer : Peer :=
  set_dynamic (NewPeer "16Uiu2HAm") maxUint64 ∅.

(** Get total of message rx from that peer.  The loop visits the entries
    of the map in an order the run time chooses and adds every [Count] to
    a [uint64]; dereferencing a [nil] entry panics ([None]). *)
Fixpoint sumCounts (entries : list (string * option MessageMetric))
    (totalMessages : N) : option N :=
  match entries with
  | [] => Some totalMessages
  | (_, None) :: _ => None
  | (_, Some messageMetric) :: rest =>
      sumCounts rest (wrap64 (totalMessages + Count messageMetric))
  end.

Definition GetAllMessagesCount (pm : Peer) : option N :=
  sumCounts (map_to_list (MessageMetrics pm)) 0.

(** [time.Duration] is an [int64]; [t.Sub(u)] saturates at its bounds. *)
Definition minDuration : Z := (- 2 ^ 63)%Z.
Definition maxDuration : Z := (2 ^ 63 - 1)%Z.

Definition Sub (t u : Time) : Z :=
  Z.max minDuration (Z.min maxDuration (t - u)).

(** [int64] addition. *)
Definition wrapInt64 (z : Z) : Z := ((z + 2 ^ 63) mod 2 ^ 64 - 2 ^ 63)%Z.

(** The inner loop of [GetConnectedTime]: what one connection time adds to
    [totalConnectedTime], the span to the first disconnection time of the
    list that is not before it, or nothing when there is none. *)
Fixpoint singleConnectionTime (conTime : Time) (discTimes : list Time) : Z :=
  match discTimes with
  | [] => 0%Z
  | discTime :: rest =>
      if (0 <=? Sub discTime conTime)%Z
      then Sub discTime conTime
      else singleConnectionTime conTime rest
  end.

Fixpoint connectedTimeLoop (conTimes discTimes : list Time)
    (totalConnectedTime : Z) : Z :=
  match conTimes with
  | [] => totalConnectedTime
  | conTime :: rest =>
      connectedTimeLoop rest discTimes
        (wrapInt64 (totalConnectedTime + singleConnectionTime conTime discTimes))
  end.

(** The value of [totalConnectedTime], in nanoseconds, when the loops of
    [GetConnectedTime] end.  The method returns it converted to [float64]
    and divided by 60000000000; that last conversion is not modelled. *)
Definition totalConnectedTime (pm : Peer) : Z :=
  connectedTimeLoop (ConnectionTimes pm) (DisconnectionTimes pm) 0.

(** *** Histories of method calls *)

Inductive PeerEvent :=
| EvConnection (direction : string) (time : Time)
| EvDisconnection (time : Time)
| EvConnectionAttempt (succeed : bool) (err : string)
| EvMessage (topicName : string) (time : Time)
| EvResetDynamicMetrics.

Definition applyEvent `{Utils} (pm : Peer) (ev : PeerEvent) : Peer :=
  match ev with
  | EvConnection direction time => ConnectionEvent pm direction time
  | EvDisconnection time => DisconnectionEvent pm time
  | EvConnectionAttempt succeed err => ConnectionAttemptEvent pm succeed err
  | EvMessage topicName time => MessageEvent pm topicName time
  | EvResetDynamicMetrics => ResetDynamicMetrics pm
  end.

(** The methods called one after the other, oldest call first. *)
Definition replay `{Utils} (events : list PeerEvent) (pm : Peer) : Peer :=
  fold_left applyEvent events pm.

(** What a history says, independently of the peer record. *)

Definition isReset (ev : PeerEvent) : bool :=
  match ev with EvResetDynamicMetrics => true | _ => false end.

Definition isAttempt (ev : PeerEvent) : bool :=
  match ev with EvConnectionAttempt _ _ => true | _ => false end.

Definition isSuccessfulAttempt (ev : PeerEvent) : bool :=
  match ev with EvConnectionAttempt true _ => true | _ => false end.

Definition isLink (ev : PeerEvent) : bool :=
  match ev with EvConnection _ _ | EvDisconnection _ => true | _ => false end.

(** The calls made after the last [ResetDynamicMetrics]. *)
Definition sinceReset (events : list PeerEvent) : list PeerEvent :=
  fold_left (fun recent ev => if isReset ev then [] else recent ++ [ev]) events [].

Definition connectionTime (ev : PeerEvent) : option Time :=
  match ev with EvConnection _ time => Some time | _ => None end.

Definition disconnectionTime (ev : PeerEvent) : option Time :=
  match ev with EvDisconnection time => Some time | _ => None end.

Definition messageTimeOn (topicName : string) (ev : PeerEvent) : option Time :=
  match ev with
  | EvMessage topic time => if String.eqb topic topicName then Some time else None
  | _ => None
  end.

Definition isMessage (ev : PeerEvent) : bool :=
  match ev with EvMessage _ _ => true | _ => false end.

(** The times of the messages of a topic received after the last reset. *)
Definition messageTimes (topicName : string) (events : list PeerEvent) : list Time :=
  omap (messageTimeOn topicName) (sinceReset events).



(** The peer after the given sessions, each a connection followed by its
    disconnection. *)
Definition sessionEvents (sessions : list (Time * Time)) : list PeerEvent :=
  flat_map (fun session => [EvConnection "inbound" session.1; EvDisconnection session.2])
           sessions.

(** The metric a topic has after messages at the given times, oldest
    first: none without a message. *)
Definition metricOf (times : list Time) : option MessageMetric :=
  match times with
  | [] => None
  | first :: rest =>
      Some {| Count := wrap64 (N.of_nat (length times));
              FirstMessageTime := first;
              LastMessageTime := List.last rest first |}
  end.

Definition countOf (entry : string * option MessageMetric) : N :=
  match entry.2 with
  | Some messageMetric => Count messageMetric
  | None => 0%N
  end.

Definition totalCount (entries : list (string * option MessageMetric)) : N :=
  foldr (fun entry total => (countOf entry + total)%N) 0%N entries.

Definition noNilEntry (entries : list (string * option MessageMetric)) : Prop :=
  Forall (fun entry => is_Some entry.2) entries.

(** A peer whose map binds a topic to a [nil] pointer. *)
Definition nilEntryPeer : Peer :=
  set_dynamic (NewPeer "16Uiu2HAm") 0 {[ "BeaconBlock"%string := None ]}.

Definition sampleHistory : list PeerEvent :=
  [EvMessage "BeaconBlock" 10%Z; EvMessage "VoluntaryExit" 11%Z;
   EvResetDynamicMetrics;
   EvMessage "BeaconBlock" 20%Z; EvConnectionAttempt false "timeout";
   EvMessage "BeaconBlock" 30%Z]%string.

Definition sampleSessions : list (Time * Time) :=
  [(100, 160); (200, 200); (300, 450)]%Z.

End metrics.

(** ** Package [postgresql] *)

Module postgresql.

Definition batchSize : nat := 256.

Definition noQueryError : string := "no error".
Definition noQueryResult : string := "no result".

(** A Go [error] is modelled by its message; [nil] is [None]. *)
Definition error := string.

(** [errors.New] and [errors.Wrap] of [github.com/pkg/errors].  As that
    library documents, wrapping a [nil] error gives [nil]; otherwise the
    message is prefixed to the cause. *)
Definition errors_New (message : string) : option error := Some message.

Definition errors_Wrap (err : option error) (message : string) : option error :=
  match err with
  | None => None
  | Some cause => Some (String.append message (String.append ": " cause))
  end.

(** *** Records sent to the persister

    The [models] and [eth] packages are not part of the embedded file.
    Each record carries the fields the persister reads and an opaque
    payload. *)

Definition Time := Z.

Record PeerInfo := { RemotePeer : string; PeerPayload : string }.
Record ConnectionAttempt := { AttemptPayload : string }.
Record ConnEvent := { PeerID : string; DiscTime : Time; EventPayload : string }.
Record IpInfo := { IP : string; IpPayload : string }.
Record BeaconStatusStamped := { StatusTimestamp : Time; Status : string }.
Record BeaconMetadataStamped := { MetadataTimestamp : Time; Metadata : string }.
Record EnrNode := { NodeID : string; EnrPayload : string }.

(** The dynamic type of a value of [hostInfo.Attr]. *)
Inductive Attribute :=
| AttrBeaconStatusStamped (bstatus : BeaconStatusStamped)
| AttrBeaconMetadataStamped (bmetadata : BeaconMetadataStamped)
| AttrEnrNode (enrNode : EnrNode)
| AttrUnrecognized (typeName : string).

(** [Attr] is a Go map; it is given as the list of its entries in the
    order in which [range] visits them, an order the run time chooses. *)
Record HostInfo := {
  ID : string;
  HostPeerInfo : PeerInfo;
  identityResolved : bool;
  Attr : list (string * Attribute)
}.

(** Modelled from the spec: [IsHostIdentified] is a method of
    [models.HostInfo], whose source is not part of the embedded file; it
    tells whether the host's identity is fully resolved. *)
Definition IsHostIdentified (hostInfo : HostInfo) : bool :=
  identityResolved hostInfo.

(** The dynamic type of an item received from [persistC]. *)
Inductive Obj :=
| ObjHostInfo (hostInfo : HostInfo)
| ObjPeerInfo (peerInfo : PeerInfo)
| ObjConnectionAttempt (connAttempt : ConnectionAttempt)
| ObjConnEvent (connEvent : ConnEvent)
| ObjIpInfo (ipInfo : IpInfo)
| ObjUnrecognized (typeName : string).

(** Modelled from the spec: the query builders ([UpsertHostInfo],
    [UpdatePeerInfo], ...) are methods of [DBClient] defined in other files
    of the package.  Each returns a statement and its positional
    parameters; a write operation is represented by the builder that made
    it, applied to its arguments. *)
Inductive WriteOp :=
| UpsertHostInfo (hostInfo : HostInfo)
| UpdatePeerInfo (peerInfo : PeerInfo)
| UpsertEthereumNodeStatus (bstatus : BeaconStatusStamped)
| UpsertEthereumNodeMetadata (bmetadata : BeaconMetadataStamped)
| UpsertEnrInfo (enrNode : EnrNode)
| UpdateConnAttempt (connAttempt : ConnectionAttempt)
| InsertNewConnEvent (connEvent : ConnEvent)
| UpdateLastActivityTimestamp (peerID : string) (discTime : Time)
| UpsertIpInfo (ipInfo : IpInfo).

(** [pgx.Batch]: the queued statements, oldest first. *)
Definition Batch := list WriteOp.

(** *** The three closures of [launchPersister] *)

Definition isReadyToPersistFn (batch : Batch) : bool :=
  (batchSize <=? length batch)%nat.

Definition batchQueryFn (batch : Batch) (op : WriteOp) : Batch :=
  batch ++ [op].

(** The store behind [psqlPool].  [txReplies] scripts how the store
    answers the successive transactions: the result of [Begin], the errors
    returned by the successive [batchResults.Query] calls ([None] for a
    result without error; once the list is exhausted the store answers
    with the "no result" error), and the result of [tx.Commit].  When the
    script is exhausted every call succeeds.  [calls] records the
    interactions, oldest first. *)
Record TxReply := {
  beginErr : option error;
  queryErrs : list (option error);
  commitErr : option error
}.

Inductive StoreCall :=
| Connect (loginStr : string)
| Ping
| InitTable (table : string)
| Begin
| SendBatch (batch : Batch)
| Query
| Commit
| PoolClose.

Record Store := {
  connectErr : option error;
  pingErr : option error;
  initErr : string -> option error;
  txReplies : list TxReply;
  calls : list StoreCall
}.

Definition called (cs : list StoreCall) (db : Store) : Store :=
  {| connectErr := connectErr db;
     pingErr := pingErr db;
     initErr := initErr db;
     txReplies := txReplies db;
     calls := calls db ++ cs |}.

Definition okReply : TxReply :=
  {| beginErr := None; queryErrs := []; commitErr := None |}.

(** [c.psqlPool.Begin]: the store's answer to this transaction. *)
Definition poolBegin (db : Store) : TxReply * Store :=
  (hd okReply (txReplies db),
   {| connectErr := connectErr db;
      pingErr := pingErr db;
      initErr := initErr db;
      txReplies := tl (txReplies db);
      calls := calls db ++ [Begin] |}).

(** The loop [for qerr == nil { rows, qerr = batchResults.Query(); ... }]:
    the error that ends it and the final value of [cnt]. *)
Fixpoint queryLoop (results : list (option error)) (cnt : nat) : error * nat :=
  match results with
  | [] => (noQueryResult, S cnt)
  | None :: rest => queryLoop rest (S cnt)
  | Some qerr :: _ => (qerr, S cnt)
  end.

Definition persistBatchFn (batch : Batch) (db : Store) : option error * Store :=
  (* if batch len == 0, don't even query *)
  if (length batch =? 0)%nat then (None, db)
  else
    let '(reply, db) := poolBegin db in
    let err := beginErr reply in
    match err with
    | Some _ => (errors_Wrap err "unable to persist batch", db)
    | None =>
        let db := called [SendBatch batch] db in
        let '(qerr, cnt) := queryLoop (queryErrs reply) 0 in
        let db := called (replicate cnt Query) db in
        (* check if there was any error *)
        if negb (String.eqb qerr noQueryResult)
        then (errors_Wrap err "unable to persist betch because an error on row", db)
        else (commitErr reply, called [Commit] db)
    end.

(** *** The type switch of the persisting loop *)

Definition persistAttr (batch : Batch) (att : Attribute) : Batch :=
  match att with
  | AttrBeaconStatusStamped bstatus =>
      batchQueryFn batch (UpsertEthereumNodeStatus bstatus)
  | AttrBeaconMetadataStamped bmetadata =>
      batchQueryFn batch (UpsertEthereumNodeMetadata bmetadata)
  | AttrEnrNode enrNode =>
      batchQueryFn batch (UpsertEnrInfo enrNode)
  | AttrUnrecognized _ => batch
  end.

Definition persistObj (batch : Batch) (obj : Obj) : Batch :=
  match obj with
  | ObjHostInfo hostInfo =>
      (* add raw new HostInfo *)
      let batch := batchQueryFn batch (UpsertHostInfo hostInfo) in
      (* check if the peerInfo needs to update anything else *)
      let batch :=
        if IsHostIdentified hostInfo
        then batchQueryFn batch (UpdatePeerInfo (HostPeerInfo hostInfo))
        else batch in
      (* Read all the Attributes in hInfo *)
      fold_left (fun batch entry => persistAttr batch (snd entry))
                (Attr hostInfo) batch
  | ObjPeerInfo peerInfo =>
      batchQueryFn batch (UpdatePeerInfo peerInfo)
  | ObjConnectionAttempt connAttempt =>
      batchQueryFn batch (UpdateConnAttempt connAttempt)
  | ObjConnEvent connEvent =>
      let batch := batchQueryFn batch (InsertNewConnEvent connEvent) in
      (* Control Info LastActivity based on last disconnection *)
      batchQueryFn batch
        (UpdateLastActivityTimestamp (PeerID connEvent) (DiscTime connEvent))
  | ObjIpInfo ipInfo =>
      batchQueryFn batch (UpsertIpInfo ipInfo)
  | ObjUnrecognized _ => batch
  end.

(** *** The client and its persister goroutine

    [DBClient] gathers the fields of the Go struct and, after them, the
    locals of the goroutine started by [launchPersister].  [ctxDone] tells
    whether [c.ctx] is cancelled; [persistC] holds the items buffered in the
    channel (capacity [batchSize]); [doneC], an unbuffered channel, is
    [true] while a sender is blocked on it; [wg] is the counter of the wait
    group; [tickerC] is [true] while a tick of the flushing ticker is
    pending; [logged] collects what [log.Error(err)] printed. *)

Inductive PC :=
| NotLaunched      (* no persister goroutine *)
| LoopHead         (* at the top of [persistingLoop] *)
| SecondSelect     (* at the select over [persistC] and the ticker *)
| Stopped.         (* the goroutine returned *)

Inductive CloseStage :=
| CloseIdle        (* [Close] was not called *)
| CloseSending     (* blocked in [c.doneC <- struct{}{}] *)
| CloseWaiting     (* blocked in [c.wg.Wait()] *)
| CloseReturned.   (* the pool and [persistC] are closed *)

Record DBClient := MkDBClient {
  ctxDone : bool;
  Network : string;
  loginStr : string;
  psqlPool : Store;
  persistC : list Obj;
  doneC : bool;
  wg : nat;
  pc : PC;
  batch : Batch;
  readyToFinish : bool;
  tickerC : bool;
  logged : list error;
  closing : CloseStage
}.

Definition setCtxDone (v : bool) (c : DBClient) : DBClient :=
  let '(MkDBClient _ nw ls pool q d w k b r t l cl) := c in
  MkDBClient v nw ls pool q d w k b r t l cl.

Definition setPool (v : Store) (c : DBClient) : DBClient :=
  let '(MkDBClient x nw ls _ q d w k b r t l cl) := c in
  MkDBClient x nw ls v q d w k b r t l cl.

Definition setPersistC (v : list Obj) (c : DBClient) : DBClient :=
  let '(MkDBClient x nw ls pool _ d w k b r t l cl) := c in
  MkDBClient x nw ls pool v d w k b r t l cl.

Definition setDoneC (v : bool) (c : DBClient) : DBClient :=
  let '(MkDBClient x nw ls pool q _ w k b r t l cl) := c in
  MkDBClient x nw ls pool q v w k b r t l cl.

Definition setWg (v : nat) (c : DBClient) : DBClient :=
  let '(MkDBClient x nw ls pool q d _ k b r t l cl) := c in
  MkDBClient x nw ls pool q d v k b r t l cl.

Definition setPc (v : PC) (c : DBClient) : DBClient :=
  let '(MkDBClient x nw ls pool q d w _ b r t l cl) := c in
  MkDBClient x nw ls pool q d w v b r t l cl.

Definition setBatch (v : Batch) (c : DBClient) : DBClient :=
  let '(MkDBClient x nw ls pool q d w k _ r t l cl) := c in
  MkDBClient x nw ls pool q d w k v r t l cl.

Definition setReadyToFinish (v : bool) (c : DBClient) : DBClient :=
  let '(MkDBClient x nw ls pool q d w k b _ t l cl) := c in
  MkDBClient x nw ls pool q d w k b v t l cl.

Definition setTickerC (v : bool) (c : DBClient) : DBClient :=
  let '(MkDBClient x nw ls pool q d w k b r _ l cl) := c in
  MkDBClient x nw ls pool q d w k b r v l cl.

Definition setLogged (v : list error) (c : DBClient) : DBClient :=
  let '(MkDBClient x nw ls pool q d w k b r t _ cl) := c in
  MkDBClient x nw ls pool q d w k b r t v cl.

Definition setClosing (v : CloseStage) (c : DBClient) : DBClient :=
  let '(MkDBClient x nw ls pool q d w k b r t l _) := c in
  MkDBClient x nw ls pool q d w k b r t l v.

(** [log.Error(err)] under [if err != nil]. *)
Definition logError (err : option error) (c : DBClient) : DBClient :=
  match err with
  | Some e => setLogged (logged c ++ [e]) c
  | None => c
  end.

(** The statements both flushing branches of the loop share:
    [err := persistBatchFn(batch)], the logging of a non-nil [err], and
    [batch = &pgx.Batch{}]. *)
Definition flushBatch (c : DBClient) : DBClient :=
  let '(err, db) := persistBatchFn (batch c) (psqlPool c) in
  setBatch [] (logError err (setPool db c)).

(** [case obj := <-c.persistC]: the type switch, then the size check. *)
Definition onReceive (obj : Obj) (rest : list Obj) (c : DBClient) : DBClient :=
  let c := setPersistC rest c in
  let c := setBatch (persistObj (batch c) obj) c in
  (* after adding whatever query we got check if we need to persist the batch *)
  let c := if isReadyToPersistFn (batch c) then flushBatch c else c in
  setPc LoopHead c.

(** [case <-ticker.C]: flush the batched queries. *)
Definition onTick (c : DBClient) : DBClient :=
  setPc LoopHead (flushBatch (setTickerC false c)).

(** From the top of the loop to the second select: the exit test, then
    the select with a [default] case over [c.ctx.Done()] and [c.doneC].
    [pickCtx] is the case the run time picks when both are ready.
    Receiving from [doneC] releases the sender blocked in [Close]. *)
Definition fromLoopHead (pickCtx : bool) (c : DBClient) : DBClient :=
  if readyToFinish c && (length (persistC c) =? 0)%nat
  then setPc Stopped (setWg (wg c - 1) c)
  else
    let received := setClosing CloseWaiting (setDoneC false (setReadyToFinish true c)) in
    let c :=
      match ctxDone c, doneC c with
      | true, true => if pickCtx then setReadyToFinish true c else received
      | true, false => setReadyToFinish true c
      | false, true => received
      | false, false => c
      end in
    setPc SecondSelect c.

(** The second select, which has no [default] case: [None] when neither
    case is ready and the goroutine stays blocked.  [pickReceive] is the
    case the run time picks when both are ready. *)
Definition fromSecondSelect (pickReceive : bool) (c : DBClient) : option DBClient :=
  match persistC c, tickerC c with
  | obj :: rest, true =>
      Some (if pickReceive then onReceive obj rest c else onTick c)
  | obj :: rest, false => Some (onReceive obj rest c)
  | [], true => Some (onTick c)
  | [], false => None
  end.

(** [launchPersister]: register in the wait group and start the goroutine
    with an empty batch, [readyToFinish] unset and a new ticker. *)
Definition launchPersister (c : DBClient) : DBClient :=
  setPc LoopHead
    (setTickerC false (setReadyToFinish false (setBatch [] (setWg (wg c + 1) c)))).

(** *** The constructor *)

Fixpoint initEach (steps : list (string * string)) (db : Store)
    : option error * Store :=
  match steps with
  | [] => (None, db)
  | (table, message) :: rest =>
      let db := called [InitTable table] db in
      match initErr db table with
      | Some err => (errors_Wrap (Some err) message, db)
      | None => initEach rest db
      end
  end.

(** [initTables]: the five initialisations in order, stopping at the first
    error.  The [Init...] methods are defined in other files of the
    package; each is a store interaction whose result the store decides. *)
Definition initTables (db : Store) : option error * Store :=
  initEach
    [("InitPeerInfoTable", "initializing peer_info table");
     ("InitConnEventTable", "initializing conn_events table");
     ("InitIpTable", "initializing ips table");
     ("InitEthNodesTable", "initializing eth_nodes table");
     ("InitEthereumNodeStatus", "initializing eth_status table")]%string
    db.

(** [NewDBClient ctx p2pNetwork loginStr initialized], run against the
    store [db]: the returned client ([None] for [nil]), the returned error
    and the store afterwards. *)
Definition NewDBClient (ctx : bool) (p2pNetwork : string) (login : string)
    (initialized : bool) (db : Store)
    : option DBClient * option error * Store :=
  (* check if the login string has enough len *)
  if (String.length login =? 0)%nat
  then (None, errors_New "empty db-endpoint provided", db)
  else
    (* try connecting to the DB from the given logingStr *)
    let db := called [Connect login] db in
    match connectErr db with
    | Some err => (None, Some err, db)
    | None =>
        (* check if the connection is successful *)
        let db := called [Ping] db in
        match pingErr db with
        | Some err => (None, errors_Wrap (Some err) "unable to ping db", db)
        | None =>
            (* compose the DBClient *)
            let dbClient :=
              {| ctxDone := ctx;
                 Network := p2pNetwork;
                 loginStr := login;
                 psqlPool := db;
                 persistC := [];
                 doneC := false;
                 wg := 0;
                 pc := NotLaunched;
                 batch := [];
                 readyToFinish := false;
                 tickerC := false;
                 logged := [];
                 closing := CloseIdle |} in
            (* initialize all the tables *)
            let '(err, db) :=
              if initialized then initTables db else (None, db) in
            match err with
            | Some _ =>
                (None,
                 errors_Wrap err
                   (String.append "unable to initialize the SQL tables at " login),
                 db)
            | None =>
                (* run the db persisters *)
                (Some (launchPersister (setPool db dbClient)), None, db)
            end
        end
    end.

(** *** Schedules

    One action is one atomic move of a goroutine or of the environment.
    [step] is [None] when the move is not possible in the state: a
    producer blocked on the full channel or sending on the closed one,
    [Close] still waiting, the persister blocked in its second select or
    already returned. *)
Inductive Action :=
| PersistToDB (persItem : Obj)  (* [c.persistC <- persItem] completes *)
| CancelCtx                     (* the context of the tool dies *)
| TickerFires                   (* a tick is delivered on [ticker.C] *)
| CloseCalled                   (* [Close] starts sending on [doneC] *)
| CloseReturns                  (* [wg.Wait()] returns; [Close] finishes *)
| PersisterRuns (pick : bool).  (* the persister runs to its next select *)

Definition step (a : Action) (c : DBClient) : option DBClient :=
  match a with
  | PersistToDB persItem =>
      match closing c with
      | CloseReturned => None
      | _ =>
          if (length (persistC c) <? batchSize)%nat
          then Some (setPersistC (persistC c ++ [persItem]) c)
          else None
      end
  | CancelCtx => Some (setCtxDone true c)
  | TickerFires =>
      match pc c with
      | NotLaunched => None
      | _ => Some (setTickerC true c)
      end
  | CloseCalled =>
      match closing c with
      | CloseIdle => Some (setClosing CloseSending (setDoneC true c))
      | _ => None
      end
  | CloseReturns =>
      match closing c, wg c with
      | CloseWaiting, O =>
          Some (setClosing CloseReturned
                  (setPool (called [PoolClose] (psqlPool c)) c))
      | _, _ => None
      end
  | PersisterRuns pick =>
      match pc c with
      | LoopHead => Some (fromLoopHead pick c)
      | SecondSelect => fromSecondSelect pick c
      | NotLaunched | Stopped => None
      end
  end.

Fixpoint run (schedule : list Action) (c : DBClient) : option DBClient :=
  match schedule with
  | [] => Some c
  | a :: rest =>
      match step a c with
      | Some c' => run rest c'
      | None => None
      end
  end.

(** *** The Write-Operation Mapper, as the specification tabulates it

    The operations one record contributes to the batch, written as a
    function of the record alone, to compare with [persistObj]. *)

Definition recognizedAttr (att : Attribute) : bool :=
  match att with
  | AttrBeaconStatusStamped _ | AttrBeaconMetadataStamped _ | AttrEnrNode _ => true
  | AttrUnrecognized _ => false
  end.

Definition attrOperations (att : Attribute) : list WriteOp :=
  match att with
  | AttrBeaconStatusStamped bstatus => [UpsertEthereumNodeStatus bstatus]
  | AttrBeaconMetadataStamped bmetadata => [UpsertEthereumNodeMetadata bmetadata]
  | AttrEnrNode enrNode => [UpsertEnrInfo enrNode]
  | AttrUnrecognized _ => []
  end.

Definition operationsOf (obj : Obj) : list WriteOp :=
  match obj with
  | ObjHostInfo hostInfo =>
      UpsertHostInfo hostInfo
      :: (if IsHostIdentified hostInfo
          then [UpdatePeerInfo (HostPeerInfo hostInfo)] else [])
      ++ flat_map (fun entry => attrOperations (snd entry)) (Attr hostInfo)
  | ObjPeerInfo peerInfo => [UpdatePeerInfo peerInfo]
  | ObjConnectionAttempt connAttempt => [UpdateConnAttempt connAttempt]
  | ObjConnEvent connEvent =>
      [InsertNewConnEvent connEvent;
       UpdateLastActivityTimestamp (PeerID connEvent) (DiscTime connEvent)]
  | ObjIpInfo ipInfo => [UpsertIpInfo ipInfo]
  | ObjUnrecognized _ => []
  end.

Definition isUpsertPeerInfo (op : WriteOp) : bool :=
  match op with
  | UpdatePeerInfo _ => true
  | _ => false
  end.

(** *** Concrete stores, records and schedules *)

(** A store that accepts every call. *)
Definition healthyStore : Store :=
  {| connectErr := None;
     pingErr := None;
     initErr := fun _ => None;
     txReplies := [];
     calls := [] |}.

(** A store that is reachable and whose transactions answer as scripted. *)
Definition scriptedStore (replies : list TxReply) : Store :=
  {| connectErr := None;
     pingErr := None;
     initErr := fun _ => None;
     txReplies := replies;
     calls := [] |}.

(** A store behind an endpoint that refuses connections. *)
Definition unreachableStore : Store :=
  {| connectErr := Some "connection refused";
     pingErr := None;
     initErr := fun _ => None;
     txReplies := [];
     calls := [] |}.

Definition sampleEndpoint : string := "postgresql://crawler@localhost:5432/armiarma".

Definition sampleConnEvent : ConnEvent :=
  {| PeerID := "16Uiu2HAm"; DiscTime := 1700000000%Z; EventPayload := "inbound" |}.

Definition sampleIpInfo : IpInfo :=
  {| IP := "203.0.113.7"; IpPayload := "DE" |}.

Definition samplePeerInfo : PeerInfo :=
  {| RemotePeer := "16Uiu2HAm"; PeerPayload := "lighthouse" |}.

Definition sampleHostInfo : HostInfo :=
  {| ID := "16Uiu2HAm";
     HostPeerInfo := samplePeerInfo;
     identityResolved := true;
     Attr :=
       [("beacon_status", AttrBeaconStatusStamped
           {| StatusTimestamp := 1700000000%Z; Status := "head" |});
        ("keep_alive", AttrUnrecognized "bool");
        ("enr", AttrEnrNode {| NodeID := "a1b2"; EnrPayload := "enr:-" |})]%string |}.

(** The client a successful [NewDBClient] returns for the store [db]. *)
Definition clientOf (db : Store) : option DBClient :=
  (NewDBClient false "eth2" sampleEndpoint false db).1.1.

(** One record goes through the loop: it is sent, then the persister runs
    from the top of the loop to the second select and receives it. *)
Definition deliver (obj : Obj) : list Action :=
  [PersistToDB obj; PersisterRuns true; PersisterRuns true].

(** 255 records of one operation each, then a connection event. *)
Definition overfullSchedule : list Action :=
  concat (replicate 255 (deliver (ObjIpInfo sampleIpInfo)))
  ++ deliver (ObjConnEvent sampleConnEvent).

Definition overfullBatch : Batch :=
  replicate 255 (UpsertIpInfo sampleIpInfo) ++ operationsOf (ObjConnEvent sampleConnEvent).

(** A connection event is sent and [Close] is called before the persister
    goroutine is first scheduled; the persister then runs three times and
    [Close] finishes. *)
Definition closeEarlySchedule : list Action :=
  [PersistToDB (ObjConnEvent sampleConnEvent); CloseCalled;
   PersisterRuns true; PersisterRuns true; PersisterRuns true;
   CloseReturns].

(** The store fails the first result of the next transaction. *)
Definition failingQueryStore : Store :=
  scriptedStore
    [{| beginErr := None;
        queryErrs := [Some "ERROR: deadlock detected (SQLSTATE 40P01)"];
        commitErr := None |}].

(** The store refuses to open the next transaction. *)
Definition failingBeginStore : Store :=
  scriptedStore
    [{| beginErr := Some "closed pool"; queryErrs := []; commitErr := None |}].

Definition countBegin (cs : list StoreCall) : nat :=
  length (List.filter (fun call => match call with Begin => true | _ => false end) cs).

(** Whether a persister goroutine exists for the client the constructor
    returned: there is none without a client, nor before
    [go dbClient.launchPersister()]. *)
Definition persisterLaunched (client : option DBClient) : bool :=
  match client with
  | Some c =>
      match pc c with
      | NotLaunched => false
      | _ => true
      end
  | None => false
  end.

(** The schedule run on the client [NewDBClient] returns for [db]. *)
Definition runFrom (db : Store) (schedule : list Action) : option DBClient :=
  match clientOf db with
  | Some c => run schedule c
  | None => None
  end.

(** What a test observes of a state: where the persister is, how far
    [Close] got, the open batch, the store interactions and the errors
    logged. *)
Definition observe (c : DBClient)
    : PC * CloseStage * Batch * list StoreCall * list error :=
  (pc c, closing c, batch c, calls (psqlPool c), logged c).

(** The persister waiting in its second select with the open batch [b],
    a tick pending and an empty channel. *)
Definition waitingClient (db : Store) (b : Batch) : DBClient :=
  {| ctxDone := false;
     Network := "eth2";
     loginStr := sampleEndpoint;
     psqlPool := db;
     persistC := [];
     doneC := false;
     wg := 1;
     pc := SecondSelect;
     batch := b;
     readyToFinish := false;
     tickerC := true;
     logged := [];
     closing := CloseIdle |}.

(** *** Observations on runs *)

(** The operations handed to the store, in order. *)
Definition submitted (cs : list StoreCall) : list WriteOp :=
  flat_map (fun call => match call with SendBatch b => b | _ => [] end) cs.

(** The records the producers sent during a schedule, in order. *)
Definition enqueued (schedule : list Action) : list Obj :=
  flat_map (fun a => match a with PersistToDB persItem => [persItem] | _ => [] end) schedule.

(** The store opens every transaction it is asked for. *)
Definition beginsSucceed (db : Store) : Prop :=
  Forall (fun reply => beginErr reply = None) (txReplies db).

Definition isShutdownSignal (a : Action) : bool :=
  match a with CancelCtx | CloseCalled => true | _ => false end.

Definition isPoolClose (call : StoreCall) : bool :=
  match call with PoolClose => true | _ => false end.

Definition isEmptySend (call : StoreCall) : bool :=
  match call with SendBatch [] => true | _ => false end.

(** The methods [initTables] calls and the messages it wraps their errors
    with, in the order of the calls. *)
Definition tableSteps : list (string * string) :=
  [("InitPeerInfoTable", "initializing peer_info table");
   ("InitConnEventTable", "initializing conn_events table");
   ("InitIpTable", "initializing ips table");
   ("InitEthNodesTable", "initializing eth_nodes table");
   ("InitEthereumNodeStatus", "initializing eth_status table")]%string.

(** The state accounts for the records of [history]: those received and
    those in the channel, the operations of the former being the batches
    sent after [base] and the open batch. *)
Definition tracks (base : list WriteOp) (history : list Obj) (c : DBClient) : Prop :=
  beginsSucceed (psqlPool c) /\
  exists received sent,
    history = received ++ persistC c /\
    submitted (calls (psqlPool c)) = base ++ sent /\
    flat_map operationsOf received = sent ++ batch c.



(** The context is cancelled while the persister is idle; the next tick
    lets it leave the loop. *)
Definition cancelledSchedule : list Action :=
  [CancelCtx; PersisterRuns true; TickerFires; PersisterRuns true; PersisterRuns true].

(** The context is cancelled while a connection event is in the channel:
    the persister receives it and leaves the loop. *)
Definition strandedSchedule : list Action :=
  [PersistToDB (ObjConnEvent sampleConnEvent); CancelCtx;
   PersisterRuns true; PersisterRuns true; PersisterRuns true].

(** A store on which the initialisation of the ips table fails. *)
Definition failingInitStore : Store :=
  {| connectErr := None;
     pingErr := None;
     initErr := fun table =>
       if String.eqb table "InitIpTable" then Some "permission denied"%string else None;
     txReplies := [];
     calls := [] |}.


End postgresql.

(** * Properties of package [metrics] *)

Section metrics_properties.
Import metrics.
Context `{Utils}.

Lemma wrap64_small (n : N) : (n < 2 ^ 64)%N -> wrap64 n = n.
Proof. intros Hn. unfold wrap64. apply N.mod_small. exact Hn. Qed.

Lemma wrap64_succ_max : wrap64 (maxUint64 + 1) = 0%N.
Proof. reflexivity. Qed.

Lemma ConnectionAttemptEvent_Attempts (pm : Peer) (succeed : bool) (err : string) :
  Attempts (ConnectionAttemptEvent pm succeed err) = wrap64 (Attempts pm + 1).
Proof. unfold ConnectionAttemptEvent. destruct succeed; reflexivity. Qed.

Lemma ConnectionAttemptEvent_Attempted (pm : Peer) (succeed : bool) (err : string) :
  Attempted (ConnectionAttemptEvent pm succeed err) = true.
Proof.
  unfold ConnectionAttemptEvent.
  destruct succeed; simpl; destruct (Attempted pm); reflexivity.
Qed.

(** The fields the method does not assign keep their values. *)
Lemma ConnectionAttemptEvent_frame (pm : Peer) (succeed : bool) (err : string) :
  let pm' := ConnectionAttemptEvent pm succeed err in
  PeerId pm' = PeerId pm /\ IsConnected pm' = IsConnected pm /\
  ConnectedDirection pm' = ConnectedDirection pm /\
  ConnectionTimes pm' = ConnectionTimes pm /\
  DisconnectionTimes pm' = DisconnectionTimes pm /\
  MessageMetrics pm' = MessageMetrics pm.
Proof. unfold ConnectionAttemptEvent. destruct succeed; repeat split. Qed.

Lemma index_empty (topicName : string) :
  index (∅ : gmap string (option MessageMetric)) topicName = None.
Proof. unfold index. rewrite lookup_empty. reflexivity. Qed.

Lemma index_insert_ne (m : gmap string (option MessageMetric))
    (k k' : string) (ptr : option MessageMetric) :
  k <> k' -> index (<[k := ptr]> m) k' = index m k'.
Proof. intros Hne. unfold index. rewrite lookup_insert_ne; [reflexivity | exact Hne]. Qed.

Lemma index_insert_eq (m : gmap string (option MessageMetric))
    (k : string) (ptr : option MessageMetric) :
  index (<[k := ptr]> m) k = ptr.
Proof. unfold index. rewrite lookup_insert_eq. reflexivity. Qed.

(** A new peer has no recorded message, and messages of other topics or
    connection events record none for the topic. *)
Lemma NewPeer_noMessageRecorded (peerId topicName : string) :
  noMessageRecorded (NewPeer peerId) topicName.
Proof. apply index_empty. Qed.

Lemma MessageEvent_other_topic (pm : Peer) (topicName other : string) (time : Time) :
  other <> topicName ->
  noMessageRecorded pm topicName ->
  noMessageRecorded (MessageEvent pm other time) topicName.
Proof.
  unfold noMessageRecorded, MessageEvent. simpl. intros Hne Hnone.
  rewrite index_insert_ne; [exact Hnone | exact Hne].
Qed.

Lemma ConnectionAttemptEvent_noMessageRecorded (pm : Peer) (topicName : string)
    (succeed : bool) (err : string) :
  noMessageRecorded pm topicName ->
  noMessageRecorded (ConnectionAttemptEvent pm succeed err) topicName.
Proof.
  unfold noMessageRecorded, ConnectionAttemptEvent. destruct succeed; simpl; auto.
Qed.

(** Once a message of the topic is recorded the count is the wrapped
    successor of the previous one, starting from zero. *)
Lemma MessageEvent_recorded (pm : Peer) (shortTopic : string) (time : Time) :
  GetNumOfMsgFromTopic (MessageEvent pm (ShortToFullTopicName shortTopic) time) shortTopic
  = wrap64 (GetNumOfMsgFromTopic pm shortTopic + 1).
Proof.
  unfold GetNumOfMsgFromTopic, MessageEvent. simpl.
  rewrite index_insert_eq.
  destruct (index (MessageMetrics pm) (ShortToFullTopicName shortTopic)); reflexivity.
Qed.

(** C9 (as amended): for every peer and every call of
    [ConnectionAttemptEvent], [Attempts] becomes [(Attempts + 1) mod 2^64]:
    it increases by exactly 1 unless it held the largest [uint64], where it
    wraps to 0.  [Attempted] is true afterwards.  When [succeed] is true,
    [Succeed] is set and [Error] is ["None"]; otherwise [Error] is the
    filtered error string and [Succeed] is unchanged. *)
Theorem C9_ConnectionAttemptEvent_counts (pm : Peer) (succeed : bool) (err : string) :
  let pm' := ConnectionAttemptEvent pm succeed err in
  Attempts pm' = wrap64 (Attempts pm + 1) /\
  ((Attempts pm < maxUint64)%N -> Attempts pm' = (Attempts pm + 1)%N) /\
  (Attempts pm = maxUint64 -> Attempts pm' = 0%N) /\
  Attempted pm' = true /\
  (succeed = true -> Succeed pm' = true /\ Error pm' = "None") /\
  (succeed = false -> Error pm' = FilterError err /\ Succeed pm' = Succeed pm).
Proof.
  cbv zeta. rewrite ConnectionAttemptEvent_Attempts.
  split; [reflexivity |].
  split.
  { intros Hlt. apply wrap64_small. unfold maxUint64 in Hlt. lia. }
  split.
  { intros ->. apply wrap64_succ_max. }
  split; [apply ConnectionAttemptEvent_Attempted |].
  unfold ConnectionAttemptEvent.
  split; intros ->; split; reflexivity.
Qed.

(** C10: for every peer and every topic for which no message has been
    recorded (no entry under the full topic name, or a [nil] one),
    [GetNumOfMsgFromTopic] returns 0; the function is total, the lookup of
    an absent topic does not fail. *)
Theorem C10_GetNumOfMsgFromTopic_absent (pm : Peer) (shortTopic : string) :
  noMessageRecorded pm (ShortToFullTopicName shortTopic) ->
  GetNumOfMsgFromTopic pm shortTopic = 0%N.
Proof.
  unfold noMessageRecorded, GetNumOfMsgFromTopic. intros ->. reflexivity.
Qed.

End metrics_properties.

(** At the largest [uint64] the counter does not increase by one: it wraps
    to zero. *)
Lemma C9_attempts_wrap_counterexample :
  metrics.Attempts
    (@metrics.ConnectionAttemptEvent metrics.plainUtils metrics.saturatedPeer true "")
  = 0%N /\
  metrics.Attempts
    (@metrics.ConnectionAttemptEvent metrics.plainUtils metrics.saturatedPeer true "")
  <> (metrics.Attempts metrics.saturatedPeer + 1)%N.
Proof. split; [reflexivity | discriminate]. Qed.

Lemma C9_ConnectionAttemptEvent_counts_witness :
  metrics.Attempts
    (@metrics.ConnectionAttemptEvent metrics.plainUtils
       (metrics.NewPeer "16Uiu2HAm") false "dial backoff") = 1%N /\
  metrics.Error
    (@metrics.ConnectionAttemptEvent metrics.plainUtils
       (metrics.NewPeer "16Uiu2HAm") false "dial backoff") = "dial backoff".
Proof.
  pose proof (@C9_ConnectionAttemptEvent_counts metrics.plainUtils
                (metrics.NewPeer "16Uiu2HAm") false "dial backoff") as Hspec.
  cbv zeta in Hspec.
  destruct Hspec as (_ & Hsmall & _ & _ & _ & Hfail).
  split.
  - apply Hsmall. reflexivity.
  - apply Hfail. reflexivity.
Defined.

Lemma C10_GetNumOfMsgFromTopic_absent_witness :
  @metrics.GetNumOfMsgFromTopic metrics.plainUtils
    (metrics.MessageEvent (metrics.NewPeer "16Uiu2HAm") "BeaconBlock" 1700000000%Z)
    "VoluntaryExit" = 0%N.
Proof.
  apply (@C10_GetNumOfMsgFromTopic_absent metrics.plainUtils).
  vm_compute. reflexivity.
Defined.

(** * Properties of package [postgresql] *)

(** ** The type switch against the mapper *)

Section mapper_properties.
Import postgresql.

Lemma persistAttr_app (b : Batch) (att : Attribute) :
  persistAttr b att = b ++ attrOperations att.
Proof.
  destruct att; simpl; unfold batchQueryFn; try reflexivity.
  symmetry. apply app_nil_r.
Qed.

Lemma persistAttrs_app (attrs : list (string * Attribute)) (b : Batch) :
  fold_left (fun acc entry => persistAttr acc (snd entry)) attrs b
  = b ++ flat_map (fun entry => attrOperations (snd entry)) attrs.
Proof.
  revert b. induction attrs as [| entry attrs IH]; intros b; simpl.
  - symmetry. apply app_nil_r.
  - rewrite IH, persistAttr_app. rewrite <- app_assoc. reflexivity.
Qed.

(** The state-passing type switch appends what the mapper tabulates. *)
Lemma persistObj_operationsOf (b : Batch) (obj : Obj) :
  persistObj b obj = b ++ operationsOf obj.
Proof.
  destruct obj as [h | p | a | e | i | t]; simpl; unfold batchQueryFn;
    try reflexivity.
  - rewrite persistAttrs_app.
    destruct (IsHostIdentified h); simpl;
      repeat rewrite <- app_assoc; reflexivity.
  - rewrite <- app_assoc. reflexivity.
  - symmetry. apply app_nil_r.
Qed.

Lemma attrOperations_length (att : Attribute) :
  length (attrOperations att) = if recognizedAttr att then 1 else 0.
Proof. destruct att; reflexivity. Qed.

Lemma attrOperations_count (attrs : list (string * Attribute)) :
  length (flat_map (fun entry => attrOperations (snd entry)) attrs)
  = length (List.filter (fun entry => recognizedAttr (snd entry)) attrs).
Proof.
  induction attrs as [| entry attrs IH]; simpl; [reflexivity |].
  rewrite length_app, attrOperations_length, IH.
  destruct (recognizedAttr (snd entry)); reflexivity.
Qed.

Lemma attrOperations_not_peer_info (attrs : list (string * Attribute)) :
  existsb isUpsertPeerInfo
    (flat_map (fun entry => attrOperations (snd entry)) attrs) = false.
Proof.
  induction attrs as [| [name att] attrs IH]; simpl; [reflexivity |].
  rewrite existsb_app, IH. destruct att; reflexivity.
Qed.

(** C4: a [HostInfo] record appends
    [1 + (1 if identified) + (number of recognized attributes)] operations:
    the host_info upsert first, the peer_info upsert exactly when the host
    is identified, then one operation per recognized attribute in the
    order of the iteration, and nothing for an unrecognized attribute. *)
Theorem C4_host_info_fan_out (b : Batch) (hostInfo : HostInfo) :
  let ops := operationsOf (ObjHostInfo hostInfo) in
  persistObj b (ObjHostInfo hostInfo) = b ++ ops /\
  length ops
  = 1 + (if IsHostIdentified hostInfo then 1 else 0)
    + length (List.filter (fun entry => recognizedAttr (snd entry)) (Attr hostInfo)) /\
  head ops = Some (UpsertHostInfo hostInfo) /\
  existsb isUpsertPeerInfo ops = IsHostIdentified hostInfo /\
  (forall typeName, persistAttr b (AttrUnrecognized typeName) = b).
Proof.
  cbv zeta. split; [apply persistObj_operationsOf |].
  split.
  { simpl. rewrite length_app, attrOperations_count.
    destruct (IsHostIdentified hostInfo); simpl; lia. }
  split; [reflexivity |].
  split; [| reflexivity].
  simpl. rewrite existsb_app, attrOperations_not_peer_info.
  destruct (IsHostIdentified hostInfo); reflexivity.
Qed.

(** C5: a [ConnEvent] record appends exactly two operations, in order:
    the insert into conn_event, then the update of the peer's last
    activity with the event's disconnection time. *)
Theorem C5_conn_event_two_operations (b : Batch) (connEvent : ConnEvent) :
  persistObj b (ObjConnEvent connEvent)
  = b ++ [InsertNewConnEvent connEvent;
          UpdateLastActivityTimestamp (PeerID connEvent) (DiscTime connEvent)] /\
  length (persistObj b (ObjConnEvent connEvent)) = length b + 2.
Proof.
  split.
  - simpl. unfold batchQueryFn. rewrite <- app_assoc. reflexivity.
  - simpl. unfold batchQueryFn. rewrite !length_app. simpl. lia.
Qed.

End mapper_properties.

Example host_info_sample_fan_out :
  postgresql.persistObj [] (postgresql.ObjHostInfo postgresql.sampleHostInfo)
  = [postgresql.UpsertHostInfo postgresql.sampleHostInfo;
     postgresql.UpdatePeerInfo postgresql.samplePeerInfo;
     postgresql.UpsertEthereumNodeStatus
       {| postgresql.StatusTimestamp := 1700000000%Z; postgresql.Status := "head" |};
     postgresql.UpsertEnrInfo
       {| postgresql.NodeID := "a1b2"; postgresql.EnrPayload := "enr:-" |}].
Proof. reflexivity. Qed.

(** ** The transactional executor *)

Section executor_properties.
Import postgresql.

(** The loop over the results ends with the first error of the script,
    or with the "no result" error once the script is exhausted. *)
Lemma queryLoop_clean (results : list (option error)) (cnt : nat) :
  Forall (fun r => r = None) results ->
  queryLoop results cnt = (noQueryResult, S (cnt + length results)).
Proof.
  revert cnt. induction results as [| r results IH]; intros cnt Hall; simpl.
  - f_equal. lia.
  - inversion Hall as [| r' rs Hr Hrest]; subst. rewrite IH by assumption.
    f_equal. lia.
Qed.

Lemma queryLoop_error (oks : list (option error)) (qerr : error)
    (rest : list (option error)) (cnt : nat) :
  Forall (fun r => r = None) oks ->
  queryLoop (oks ++ Some qerr :: rest) cnt = (qerr, S (cnt + length oks)).
Proof.
  revert cnt. induction oks as [| r oks IH]; intros cnt Hall; simpl.
  - f_equal. lia.
  - inversion Hall as [| r' rs Hr Hrest]; subst. rewrite IH by assumption.
    f_equal. lia.
Qed.

Lemma calls_called (cs : list StoreCall) (db : Store) :
  calls (called cs db) = calls db ++ cs.
Proof. reflexivity. Qed.

(** What [persistBatchFn] does on a non-empty batch once the transaction
    is open, by the error that ends the loop over the results. *)
Lemma persistBatchFn_open (b : Batch) (db : Store) (qerr : error) (cnt : nat) :
  b <> [] ->
  beginErr (poolBegin db).1 = None ->
  queryLoop (queryErrs (poolBegin db).1) 0 = (qerr, cnt) ->
  persistBatchFn b db =
    let db' := called (replicate cnt Query) (called [SendBatch b] (poolBegin db).2) in
    if String.eqb qerr noQueryResult
    then (commitErr (poolBegin db).1, called [Commit] db')
    else (None, db').
Proof.
  intros Hne Hbegin Hloop. unfold persistBatchFn.
  destruct b as [| op b]; [congruence |]. simpl length. simpl Nat.eqb. cbv iota.
  destruct (poolBegin db) as [reply db1] eqn:Hpool. simpl in *.
  rewrite Hbegin, Hloop. simpl.
  destruct (String.eqb qerr noQueryResult); reflexivity.
Qed.

(** On a clean end of the results the transaction is committed and the
    result of the commit is returned. *)
Lemma persistBatchFn_sentinel_commits (b : Batch) (db : Store) (cnt : nat) :
  b <> [] ->
  beginErr (poolBegin db).1 = None ->
  queryLoop (queryErrs (poolBegin db).1) 0 = (noQueryResult, cnt) ->
  (persistBatchFn b db).1 = commitErr (poolBegin db).1 /\
  last (calls (persistBatchFn b db).2) = Some Commit.
Proof.
  intros Hne Hbegin Hloop.
  rewrite (persistBatchFn_open b db noQueryResult cnt Hne Hbegin Hloop).
  cbv zeta. simpl. split; [reflexivity |].
  apply last_snoc.
Qed.

(** When another error ends the loop the transaction is not committed,
    and the returned error is [nil]: the wrapped error is [err], the
    result of [Begin], which is [nil] at that point. *)
Lemma persistBatchFn_query_error (b : Batch) (db : Store) (qerr : error) (cnt : nat) :
  b <> [] ->
  beginErr (poolBegin db).1 = None ->
  queryLoop (queryErrs (poolBegin db).1) 0 = (qerr, cnt) ->
  qerr <> noQueryResult ->
  (persistBatchFn b db).1 = None /\
  calls (persistBatchFn b db).2
  = calls db ++ [Begin; SendBatch b] ++ replicate cnt Query.
Proof.
  intros Hne Hbegin Hloop Hqerr.
  rewrite (persistBatchFn_open b db qerr cnt Hne Hbegin Hloop).
  cbv zeta. apply String.eqb_neq in Hqerr. rewrite Hqerr. simpl.
  split; [reflexivity |]. rewrite <- !app_assoc. reflexivity.
Qed.

(** C7: on an empty batch the commit returns [nil] at once and leaves the
    store as it was: no transaction is opened, no call is recorded. *)
Theorem C7_persistBatchFn_empty (db : Store) :
  persistBatchFn [] db = (None, db) /\
  calls (persistBatchFn [] db).2 = calls db.
Proof. split; reflexivity. Qed.

End executor_properties.

(** C3 (the code at the failing input): a batch of one operation is sent,
    the transaction opens, and the first result carries an error other than
    "no result".  The transaction is not committed, and the returned error
    is [nil] where the claim requires a wrapped error. *)
Theorem C3_query_error_returns_nil :
  postgresql.persistBatchFn
    [postgresql.UpsertIpInfo postgresql.sampleIpInfo] postgresql.failingQueryStore
  = (None,
     postgresql.called
       [postgresql.Begin;
        postgresql.SendBatch [postgresql.UpsertIpInfo postgresql.sampleIpInfo];
        postgresql.Query]
       (postgresql.scriptedStore [])).
Proof. reflexivity. Qed.

(** ** The persisting loop *)

Section loop_properties.
Import postgresql.

Ltac open_client c := destruct c; simpl in *.

Lemma batch_flushBatch (c : DBClient) : batch (flushBatch c) = [].
Proof.
  unfold flushBatch. destruct (persistBatchFn (batch c) (psqlPool c)) as [err db].
  destruct err; open_client c; reflexivity.
Qed.

Lemma persistC_flushBatch (c : DBClient) : persistC (flushBatch c) = persistC c.
Proof.
  unfold flushBatch. destruct (persistBatchFn (batch c) (psqlPool c)) as [err db].
  destruct err; open_client c; reflexivity.
Qed.

Lemma psqlPool_flushBatch (c : DBClient) :
  psqlPool (flushBatch c) = (persistBatchFn (batch c) (psqlPool c)).2.
Proof.
  unfold flushBatch. destruct (persistBatchFn (batch c) (psqlPool c)) as [err db].
  destruct err; open_client c; reflexivity.
Qed.

Lemma logged_flushBatch (c : DBClient) :
  logged (flushBatch c)
  = logged c ++ match (persistBatchFn (batch c) (psqlPool c)).1 with
                | Some e => [e]
                | None => []
                end.
Proof.
  unfold flushBatch. destruct (persistBatchFn (batch c) (psqlPool c)) as [err db].
  destruct err; open_client c; [reflexivity | symmetry; apply app_nil_r].
Qed.

Lemma countBegin_app (cs1 cs2 : list StoreCall) :
  countBegin (cs1 ++ cs2) = countBegin cs1 + countBegin cs2.
Proof. unfold countBegin. rewrite List.filter_app, length_app. reflexivity. Qed.

Lemma countBegin_queries (n : nat) : countBegin (replicate n Query) = 0.
Proof. induction n as [| n IH]; [reflexivity | exact IH]. Qed.

(** One flush opens at most one transaction: a failed commit is not
    attempted again. *)
Lemma persistBatchFn_one_attempt (b : Batch) (db : Store) :
  countBegin (calls (persistBatchFn b db).2) <= countBegin (calls db) + 1.
Proof.
  unfold persistBatchFn. destruct (length b =? 0)%nat; [cbn [snd]; lia |].
  unfold poolBegin.
  destruct (beginErr (hd okReply (txReplies db))).
  - cbn [snd calls]. rewrite countBegin_app. change (countBegin [Begin]) with 1. lia.
  - destruct (queryLoop (queryErrs (hd okReply (txReplies db))) 0) as [qerr cnt].
    destruct (negb (String.eqb qerr noQueryResult)); unfold called; cbn [snd calls];
      rewrite !countBegin_app, countBegin_queries;
      change (countBegin [Begin]) with 1;
      change (countBegin [SendBatch b]) with 0;
      try change (countBegin [Commit]) with 0; lia.
Qed.

Lemma batch_onTick (c : DBClient) : batch (onTick c) = [].
Proof.
  unfold onTick.
  pose proof (batch_flushBatch (setTickerC false c)) as Hflush.
  destruct (flushBatch (setTickerC false c)); exact Hflush.
Qed.

(** The receiving branch, by the length of the batch once the operations
    of the record are appended. *)
Lemma onReceive_full (obj : Obj) (rest : list Obj) (c : DBClient) :
  isReadyToPersistFn (persistObj (batch c) obj) = true ->
  onReceive obj rest c
  = setPc LoopHead (flushBatch (setBatch (persistObj (batch c) obj) (setPersistC rest c))).
Proof.
  intros Hready. unfold onReceive. open_client c. rewrite Hready. reflexivity.
Qed.

Lemma onReceive_open (obj : Obj) (rest : list Obj) (c : DBClient) :
  isReadyToPersistFn (persistObj (batch c) obj) = false ->
  onReceive obj rest c
  = setPc LoopHead (setBatch (persistObj (batch c) obj) (setPersistC rest c)).
Proof.
  intros Hready. unfold onReceive. open_client c. rewrite Hready. reflexivity.
Qed.

Lemma isReadyToPersistFn_true (b : Batch) :
  isReadyToPersistFn b = true <-> batchSize <= length b.
Proof. unfold isReadyToPersistFn. apply Nat.leb_le. Qed.

Lemma isReadyToPersistFn_false (b : Batch) :
  isReadyToPersistFn b = false <-> length b < batchSize.
Proof. unfold isReadyToPersistFn. apply Nat.leb_gt. Qed.

Lemma batch_setPc (k : PC) (c : DBClient) : batch (setPc k c) = batch c.
Proof. open_client c. reflexivity. Qed.

Lemma persistC_setPc (k : PC) (c : DBClient) : persistC (setPc k c) = persistC c.
Proof. open_client c. reflexivity. Qed.

Lemma psqlPool_setPc (k : PC) (c : DBClient) : psqlPool (setPc k c) = psqlPool c.
Proof. open_client c. reflexivity. Qed.

Lemma batch_onReceive_full (obj : Obj) (rest : list Obj) (c : DBClient) :
  isReadyToPersistFn (persistObj (batch c) obj) = true ->
  batch (onReceive obj rest c) = [] /\
  persistC (onReceive obj rest c) = rest /\
  psqlPool (onReceive obj rest c)
  = (persistBatchFn (persistObj (batch c) obj) (psqlPool c)).2.
Proof.
  intros Hready. rewrite (onReceive_full obj rest c Hready).
  rewrite batch_setPc, persistC_setPc, psqlPool_setPc.
  rewrite batch_flushBatch, persistC_flushBatch, psqlPool_flushBatch.
  open_client c. repeat split.
Qed.

Lemma batch_onReceive_open (obj : Obj) (rest : list Obj) (c : DBClient) :
  isReadyToPersistFn (persistObj (batch c) obj) = false ->
  batch (onReceive obj rest c) = persistObj (batch c) obj /\
  psqlPool (onReceive obj rest c) = psqlPool c.
Proof.
  intros Hready. rewrite (onReceive_open obj rest c Hready).
  open_client c. split; reflexivity.
Qed.

(** The top of the loop neither flushes nor touches the batch, also when
    it leaves the loop. *)
Lemma fromLoopHead_keeps_batch (pick : bool) (c : DBClient) :
  batch (fromLoopHead pick c) = batch c /\
  psqlPool (fromLoopHead pick c) = psqlPool c /\
  logged (fromLoopHead pick c) = logged c.
Proof.
  unfold fromLoopHead.
  destruct (readyToFinish c && (length (persistC c) =? 0)%nat);
    destruct (ctxDone c), (doneC c), pick; open_client c; repeat split.
Qed.

(** The loop is left only when shutdown was signalled and the channel is
    empty: the persister keeps receiving until then. *)
Lemma stops_only_when_drained (pick : bool) (c : DBClient) :
  pc (fromLoopHead pick c) = Stopped ->
  readyToFinish c = true /\ persistC c = [].
Proof.
  unfold fromLoopHead.
  destruct (readyToFinish c) eqn:Hready; simpl.
  - destruct (persistC c) as [| obj rest] eqn:Hqueue; simpl.
    + intros _. split; reflexivity.
    + destruct (ctxDone c), (doneC c), pick; open_client c; discriminate.
  - destruct (ctxDone c), (doneC c), pick; open_client c; discriminate.
Qed.

Lemma step_batch_bound (a : Action) (c c' : DBClient) :
  step a c = Some c' ->
  length (batch c) < batchSize ->
  length (batch c') < batchSize.
Proof.
  intros Hstep Hbound.
  destruct a as [obj | | | | | pick]; simpl in Hstep.
  - destruct (closing c); try discriminate;
      destruct (length (persistC c) <? batchSize)%nat; try discriminate;
      injection Hstep as <-; open_client c; exact Hbound.
  - injection Hstep as <-. open_client c. exact Hbound.
  - destruct (pc c); try discriminate;
      injection Hstep as <-; open_client c; exact Hbound.
  - destruct (closing c); try discriminate.
    injection Hstep as <-. open_client c. exact Hbound.
  - destruct (closing c); try discriminate.
    destruct (wg c); try discriminate.
    injection Hstep as <-. open_client c. exact Hbound.
  - destruct (pc c); try discriminate.
    + injection Hstep as <-.
      destruct (fromLoopHead_keeps_batch pick c) as (-> & _). exact Hbound.
    + unfold fromSecondSelect in Hstep.
      assert (Hreceive : forall obj rest,
                 length (batch (onReceive obj rest c)) < batchSize).
      { intros obj rest.
        destruct (isReadyToPersistFn (persistObj (batch c) obj)) eqn:Hready.
        - destruct (batch_onReceive_full obj rest c Hready) as (-> & _).
          unfold batchSize. simpl. lia.
        - destruct (batch_onReceive_open obj rest c Hready) as (-> & _).
          apply isReadyToPersistFn_false. exact Hready. }
      assert (Htick : length (batch (onTick c)) < batchSize).
      { rewrite batch_onTick. unfold batchSize. simpl. lia. }
      destruct (persistC c) as [| obj rest], (tickerC c), pick;
        try discriminate; injection Hstep as <-; auto.
Qed.

Lemma run_batch_bound (schedule : list Action) (c c' : DBClient) :
  run schedule c = Some c' ->
  length (batch c) < batchSize ->
  length (batch c') < batchSize.
Proof.
  revert c. induction schedule as [| a schedule IH]; intros c Hrun Hbound; simpl in Hrun.
  - injection Hrun as <-. exact Hbound.
  - destruct (step a c) as [c1 |] eqn:Hstep; [| discriminate].
    apply (IH c1 Hrun). apply (step_batch_bound a c c1 Hstep Hbound).
Qed.

(** The constructor returns a client exactly when it returns no error,
    and that client's persister is started with an empty batch. *)
Lemma NewDBClient_client (ctx : bool) (nw login : string) (initialized : bool)
    (db db' : Store) (c : DBClient) (err : option error) :
  NewDBClient ctx nw login initialized db = (Some c, err, db') ->
  err = None /\ pc c = LoopHead /\ batch c = [] /\ wg c = 1 /\ psqlPool c = db'.
Proof.
  unfold NewDBClient. intros Hnew.
  destruct (String.length login =? 0)%nat; [discriminate |].
  simpl in Hnew.
  destruct (connectErr db); [discriminate |].
  destruct (pingErr db); [discriminate |].
  destruct (if initialized then _ else _) as [ierr db1].
  destruct ierr; [discriminate |].
  injection Hnew as <- <- <-. repeat split.
Qed.

(** C6: after a flush attempt the open batch is empty, whether the
    commit returned an error or not.  The attempt opens at most one
    transaction (a failed commit is not retried), the error is only
    logged, and the channel is left as it is (nothing is requeued); this
    holds at both flushing sites of the loop, the ticker branch and the
    size check after a received record. *)
Theorem C6_flush_resets_batch (c : DBClient) (err : option error) (db' : Store) :
  persistBatchFn (batch c) (psqlPool c) = (err, db') ->
  batch (flushBatch c) = [] /\
  psqlPool (flushBatch c) = db' /\
  persistC (flushBatch c) = persistC c /\
  logged (flushBatch c) = logged c ++ match err with Some e => [e] | None => [] end /\
  countBegin (calls db') <= countBegin (calls (psqlPool c)) + 1 /\
  batch (onTick c) = [] /\
  (forall obj rest,
      isReadyToPersistFn (persistObj (batch c) obj) = true ->
      batch (onReceive obj rest c) = [] /\ persistC (onReceive obj rest c) = rest).
Proof.
  intros Hflush.
  split; [apply batch_flushBatch |].
  split; [rewrite psqlPool_flushBatch, Hflush; reflexivity |].
  split; [apply persistC_flushBatch |].
  split; [rewrite logged_flushBatch, Hflush; reflexivity |].
  split.
  { pose proof (persistBatchFn_one_attempt (batch c) (psqlPool c)) as Hone.
    rewrite Hflush in Hone. exact Hone. }
  split; [apply batch_onTick |].
  intros obj rest Hready.
  destruct (batch_onReceive_full obj rest c Hready) as (Hbatch & Hqueue & _).
  split; assumption.
Qed.

(** C2 (as amended): the size trigger is evaluated once after each
    received record, when all the operations of that record are appended.
    If the batch then holds 256 operations or more it is flushed at once,
    before the next record is received, and reset; otherwise it is kept
    and the store is not touched.  Consequently, in every state the
    persister reaches from a new client, the open batch holds fewer than
    256 operations. *)
Theorem C2_size_trigger_after_each_record :
  (forall (obj : Obj) (rest : list Obj) (c : DBClient),
      (batchSize <= length (persistObj (batch c) obj) ->
       batch (onReceive obj rest c) = [] /\
       psqlPool (onReceive obj rest c)
       = (persistBatchFn (persistObj (batch c) obj) (psqlPool c)).2) /\
      (length (persistObj (batch c) obj) < batchSize ->
       batch (onReceive obj rest c) = persistObj (batch c) obj /\
       psqlPool (onReceive obj rest c) = psqlPool c)) /\
  (forall (ctx : bool) (nw login : string) (initialized : bool) (db db' : Store)
          (c c' : DBClient) (err : option error) (schedule : list Action),
      NewDBClient ctx nw login initialized db = (Some c, err, db') ->
      run schedule c = Some c' ->
      length (batch c') < batchSize).
Proof.
  split.
  - intros obj rest c. split.
    + intros Hfull. apply isReadyToPersistFn_true in Hfull.
      destruct (batch_onReceive_full obj rest c Hfull) as (Hbatch & _ & Hpool).
      split; assumption.
    + intros Hopen. apply isReadyToPersistFn_false in Hopen.
      apply batch_onReceive_open. exact Hopen.
  - intros ctx nw login initialized db db' c c' err schedule Hnew Hrun.
    apply (run_batch_bound schedule c c' Hrun).
    destruct (NewDBClient_client _ _ _ _ _ _ _ _ Hnew) as (_ & _ & -> & _).
    unfold batchSize. simpl. lia.
Qed.

(** A returned client has its persister launched. *)
Lemma NewDBClient_launches (ctx : bool) (nw login : string) (initialized : bool)
    (db db' : Store) (c : DBClient) (err : option error) :
  NewDBClient ctx nw login initialized db = (Some c, err, db') ->
  persisterLaunched (NewDBClient ctx nw login initialized db).1.1 = true.
Proof.
  intros Hnew. rewrite Hnew. simpl.
  destruct (NewDBClient_client _ _ _ _ _ _ _ _ Hnew) as (_ & -> & _). reflexivity.
Qed.

(** C8: when the connection string is empty, or the connection cannot be
    established, or the ping fails, the constructor returns a non-nil error
    and no client, and no persister is launched; with an empty connection
    string the store is not touched. *)
Theorem C8_NewDBClient_fails_fast (ctx : bool) (nw login : string)
    (initialized : bool) (db : Store) :
  login = ""%string \/ connectErr db <> None \/ pingErr db <> None ->
  (NewDBClient ctx nw login initialized db).1.2 <> None /\
  (NewDBClient ctx nw login initialized db).1.1 = None /\
  persisterLaunched (NewDBClient ctx nw login initialized db).1.1 = false /\
  (login = ""%string -> (NewDBClient ctx nw login initialized db).2 = db).
Proof.
  intros Hfail. unfold NewDBClient.
  destruct login as [| ch login]; simpl.
  - repeat split. discriminate.
  - destruct Hfail as [Hempty | [Hconnect | Hping]]; [discriminate | |].
    + destruct (connectErr db); [| congruence].
      simpl. repeat split; discriminate.
    + destruct (connectErr db); [simpl; repeat split; discriminate |].
      destruct (pingErr db); [| congruence].
      simpl. repeat split; discriminate.
Qed.

End loop_properties.

(** ** Runs of the persister *)

Example size_trigger_at_256 :
  option_map postgresql.observe
    (postgresql.runFrom postgresql.healthyStore
       (concat (replicate 256 (postgresql.deliver (postgresql.ObjIpInfo postgresql.sampleIpInfo)))))
  = Some (postgresql.LoopHead, postgresql.CloseIdle, [],
          [postgresql.Connect postgresql.sampleEndpoint; postgresql.Ping;
           postgresql.Begin;
           postgresql.SendBatch (replicate 256 (postgresql.UpsertIpInfo postgresql.sampleIpInfo));
           postgresql.Query; postgresql.Commit],
          []).
Proof. vm_compute. reflexivity. Qed.

(** When the persister is idle at the time of the shutdown signal, the
    pending tick flushes the two operations before the loop is left. *)
Example close_after_tick_flushes :
  option_map postgresql.observe
    (postgresql.runFrom postgresql.healthyStore
       [postgresql.PersisterRuns true;
        postgresql.PersistToDB (postgresql.ObjConnEvent postgresql.sampleConnEvent);
        postgresql.PersisterRuns true;
        postgresql.CloseCalled;
        postgresql.PersisterRuns true;
        postgresql.TickerFires;
        postgresql.PersisterRuns true;
        postgresql.PersisterRuns true;
        postgresql.CloseReturns])
  = Some (postgresql.Stopped, postgresql.CloseReturned, [],
          [postgresql.Connect postgresql.sampleEndpoint; postgresql.Ping;
           postgresql.Begin;
           postgresql.SendBatch
             (postgresql.operationsOf (postgresql.ObjConnEvent postgresql.sampleConnEvent));
           postgresql.Query; postgresql.Commit; postgresql.PoolClose],
          []).
Proof. vm_compute. reflexivity. Qed.

(** C1 (the code at the failing input): a connection event is sent and
    [Close] is called while the event is still in the channel.  The
    persister takes the close signal, receives the event, finds the channel
    empty and leaves the loop; [Close] returns.  The two operations of the
    event are still in the batch and the store saw no transaction: no final
    commit was attempted. *)
Theorem C1_close_returns_without_final_commit :
  option_map postgresql.observe
    (postgresql.runFrom postgresql.healthyStore postgresql.closeEarlySchedule)
  = Some (postgresql.Stopped, postgresql.CloseReturned,
          [postgresql.InsertNewConnEvent postgresql.sampleConnEvent;
           postgresql.UpdateLastActivityTimestamp "16Uiu2HAm" 1700000000%Z],
          [postgresql.Connect postgresql.sampleEndpoint; postgresql.Ping;
           postgresql.PoolClose],
          []).
Proof. vm_compute. reflexivity. Qed.

(** The batch sent at the size trigger holds 257 operations: after the
    first operation of the connection event the batch held 256 and was not
    flushed before the second was appended. *)
Lemma C2_batch_exceeds_bound_counterexample :
  option_map postgresql.observe
    (postgresql.runFrom postgresql.healthyStore postgresql.overfullSchedule)
  = Some (postgresql.LoopHead, postgresql.CloseIdle, [],
          [postgresql.Connect postgresql.sampleEndpoint; postgresql.Ping;
           postgresql.Begin; postgresql.SendBatch postgresql.overfullBatch;
           postgresql.Query; postgresql.Commit],
          []) /\
  length postgresql.overfullBatch = 257 /\
  postgresql.batchSize < length postgresql.overfullBatch.
Proof.
  split; [vm_compute; reflexivity |].
  split; [reflexivity |].
  vm_compute. lia.
Qed.

Lemma C2_size_trigger_after_each_record_witness :
  length
    (postgresql.batch
       (postgresql.onReceive (postgresql.ObjConnEvent postgresql.sampleConnEvent) []
          (postgresql.waitingClient postgresql.healthyStore
             (replicate 255 (postgresql.UpsertIpInfo postgresql.sampleIpInfo))))) = 0 /\
  (exists c',
      postgresql.runFrom postgresql.healthyStore
        (postgresql.deliver (postgresql.ObjConnEvent postgresql.sampleConnEvent)) = Some c' /\
      length (postgresql.batch c') < postgresql.batchSize).
Proof.
  destruct C2_size_trigger_after_each_record as [Hstep Hruns].
  split.
  - destruct (Hstep (postgresql.ObjConnEvent postgresql.sampleConnEvent) []
                (postgresql.waitingClient postgresql.healthyStore
                   (replicate 255 (postgresql.UpsertIpInfo postgresql.sampleIpInfo))))
      as [Hfull _].
    destruct Hfull as [Hbatch _]; [vm_compute; lia |].
    rewrite Hbatch. reflexivity.
  - eexists. split; [vm_compute; reflexivity |].
    eapply Hruns with
      (ctx := false) (nw := "eth2"%string) (login := postgresql.sampleEndpoint)
      (initialized := false) (db := postgresql.healthyStore)
      (schedule := postgresql.deliver (postgresql.ObjConnEvent postgresql.sampleConnEvent)).
    + vm_compute. reflexivity.
    + vm_compute. reflexivity.
Defined.

(** A flush whose transaction cannot be opened: the error is logged and the
    batch is reset all the same. *)
Lemma C6_flush_resets_batch_witness :
  postgresql.batch
    (postgresql.flushBatch
       (postgresql.waitingClient postgresql.failingBeginStore
          [postgresql.UpsertIpInfo postgresql.sampleIpInfo])) = [] /\
  postgresql.logged
    (postgresql.flushBatch
       (postgresql.waitingClient postgresql.failingBeginStore
          [postgresql.UpsertIpInfo postgresql.sampleIpInfo]))
  = ["unable to persist batch: closed pool"%string].
Proof.
  destruct (C6_flush_resets_batch
              (postgresql.waitingClient postgresql.failingBeginStore
                 [postgresql.UpsertIpInfo postgresql.sampleIpInfo])
              (Some "unable to persist batch: closed pool"%string)
              (postgresql.called [postgresql.Begin] (postgresql.scriptedStore [])))
    as (Hbatch & _ & _ & Hlogged & _).
  - vm_compute. reflexivity.
  - split; [exact Hbatch | exact Hlogged].
Defined.

(** The endpoint refuses the connection: no client, the error of the
    connection attempt is returned. *)
Lemma C8_NewDBClient_fails_fast_witness :
  (postgresql.NewDBClient false "eth2" postgresql.sampleEndpoint true
     postgresql.unreachableStore).1.2 <> None /\
  postgresql.persisterLaunched
    (postgresql.NewDBClient false "eth2" postgresql.sampleEndpoint true
       postgresql.unreachableStore).1.1 = false.
Proof.
  destruct (C8_NewDBClient_fails_fast false "eth2" postgresql.sampleEndpoint true
              postgresql.unreachableStore) as (Herr & _ & Hlaunched & _).
  - right. left. vm_compute. discriminate.
  - split; [exact Herr | exact Hlaunched].
Defined.

Example NewDBClient_empty_endpoint :
  postgresql.NewDBClient false "eth2" "" true postgresql.healthyStore
  = (None, Some "empty db-endpoint provided"%string, postgresql.healthyStore).
Proof. reflexivity. Qed.


(** * Further properties of package [metrics]: histories of calls *)

Section metrics_histories.
Import metrics.
Context `{Utils}.

Lemma wrap64_add_l (a b : N) : wrap64 (wrap64 a + b) = wrap64 (a + b).
Proof. unfold wrap64. rewrite N.Div0.add_mod_idemp_l. reflexivity. Qed.

Lemma replay_snoc (events : list PeerEvent) (ev : PeerEvent) (pm : Peer) :
  replay (events ++ [ev]) pm = applyEvent (replay events pm) ev.
Proof. unfold replay. rewrite fold_left_app. reflexivity. Qed.

Lemma sinceReset_snoc (events : list PeerEvent) (ev : PeerEvent) :
  sinceReset (events ++ [ev])
  = if isReset ev then [] else sinceReset events ++ [ev].
Proof. unfold sinceReset. rewrite fold_left_app. reflexivity. Qed.

Lemma filter_snoc {A : Type} (f : A -> bool) (l : list A) (x : A) :
  List.filter f (l ++ [x]) = List.filter f l ++ (if f x then [x] else []).
Proof. rewrite List.filter_app. reflexivity. Qed.

Lemma existsb_snoc {A : Type} (f : A -> bool) (l : list A) (x : A) :
  existsb f (l ++ [x]) = existsb f l || f x.
Proof. rewrite existsb_app. simpl. rewrite orb_false_r. reflexivity. Qed.

(** X1: the attempt fields of a peer, from the calls made on it since
    [NewPeer].  [Attempts] counts the attempts since the last reset, modulo
    2^64.  [Attempted] and [Succeed] are never cleared: they tell whether
    some attempt, respectively some successful attempt, was ever made, also
    before a reset and also when a later attempt failed.  [Error] is that of
    the last attempt, ["None"] when it succeeded or when there was none. *)
Theorem attempts_follow_history (peerId : string) (events : list PeerEvent) :
  let pm := replay events (NewPeer peerId) in
  Attempts pm
  = wrap64 (N.of_nat (length (List.filter isAttempt (sinceReset events)))) /\
  Attempted pm = existsb isAttempt events /\
  Succeed pm = existsb isSuccessfulAttempt events /\
  Error pm = match last (List.filter isAttempt events) with
             | Some (EvConnectionAttempt false err) => FilterError err
             | _ => "None"%string
             end.
Proof.
  cbv zeta. induction events as [| ev events IH] using rev_ind.
  - repeat split.
  - destruct IH as (Hattempts & Hattempted & Hsucceed & Herror).
    rewrite replay_snoc, sinceReset_snoc, !filter_snoc, !existsb_snoc.
    destruct ev as [direction time | time | succeed err | topic time |]; simpl.
    + rewrite !app_nil_r, !orb_false_r, filter_snoc, app_nil_r. simpl. auto.
    + rewrite !app_nil_r, !orb_false_r, filter_snoc, app_nil_r. simpl. auto.
    + rewrite filter_snoc. simpl. rewrite last_snoc, length_app, orb_true_r.
      simpl length. rewrite ConnectionAttemptEvent_Attempts, Hattempts.
      rewrite wrap64_add_l.
      replace (N.of_nat (length (List.filter isAttempt (sinceReset events)) + 1))
        with (N.of_nat (length (List.filter isAttempt (sinceReset events))) + 1)%N by lia.
      split; [reflexivity |].
      split; [apply ConnectionAttemptEvent_Attempted |].
      unfold ConnectionAttemptEvent.
      destruct succeed; simpl; rewrite ?orb_true_r, ?orb_false_r; auto.
    + rewrite !app_nil_r, !orb_false_r, filter_snoc, app_nil_r. simpl. auto.
    + rewrite !app_nil_r, !orb_false_r. simpl. auto.
Qed.

Lemma connection_fields_of_history (peerId : string) (events : list PeerEvent) :
  let pm := replay events (NewPeer peerId) in
  ConnectionTimes pm = omap connectionTime events /\
  DisconnectionTimes pm = omap disconnectionTime events /\
  IsConnected pm = match last (List.filter isLink events) with
                   | Some (EvConnection _ _) => true
                   | _ => false
                   end /\
  ConnectedDirection pm = match last (List.filter isLink events) with
                          | Some (EvConnection direction _) => direction
                          | _ => ""%string
                          end.
Proof.
  cbv zeta. induction events as [| ev events IH] using rev_ind.
  - repeat split.
  - destruct IH as (Hcon & Hdisc & Hconnected & Hdirection).
    rewrite replay_snoc, !omap_app, filter_snoc.
    destruct ev as [direction time | time | succeed err | topic time |]; simpl;
      rewrite ?last_snoc, ?app_nil_r.
    + rewrite Hcon. auto.
    + rewrite Hdisc. auto.
    + unfold ConnectionAttemptEvent. destruct succeed; simpl; auto.
    + auto.
    + auto.
Qed.

(** X2: the connection fields of a peer, from the calls made on it since
    [NewPeer].  The two lists hold the times of all connection and of all
    disconnection events, oldest first; no method removes from them.  The
    peer is connected exactly when the last of these events is a
    connection, whose direction it then keeps. *)
Theorem connections_follow_history (peerId : string) (events : list PeerEvent) :
  let pm := replay events (NewPeer peerId) in
  ConnectionTimes pm = omap connectionTime events /\
  DisconnectionTimes pm = omap disconnectionTime events /\
  IsConnected pm = match last (List.filter isLink events) with
                   | Some (EvConnection _ _) => true
                   | _ => false
                   end /\
  ConnectedDirection pm = match last (List.filter isLink events) with
                          | Some (EvConnection direction _) => direction
                          | _ => ""%string
                          end.
Proof. apply connection_fields_of_history. Qed.

Lemma messageTimes_snoc (topicName : string) (events : list PeerEvent) (ev : PeerEvent) :
  messageTimes topicName (events ++ [ev])
  = if isReset ev then []
    else messageTimes topicName events
         ++ match messageTimeOn topicName ev with Some time => [time] | None => [] end.
Proof.
  unfold messageTimes. rewrite sinceReset_snoc.
  destruct (isReset ev); [reflexivity |].
  rewrite omap_app. simpl. destruct (messageTimeOn topicName ev); reflexivity.
Qed.

Lemma metricOf_snoc (times : list Time) (time : Time) :
  metricOf (times ++ [time])
  = Some {| Count := wrap64 (match metricOf times with
                             | Some mm => Count mm
                             | None => 0
                             end + 1);
            FirstMessageTime := match metricOf times with
                                | Some mm => FirstMessageTime mm
                                | None => time
                                end;
            LastMessageTime := time |}.
Proof.
  destruct times as [| first rest]; [reflexivity |].
  simpl. f_equal. f_equal.
  - rewrite wrap64_add_l. f_equal. rewrite length_app. simpl. lia.
  - apply last_last.
Qed.

Lemma index_follows_history (peerId : string) (events : list PeerEvent)
    (topicName : string) :
  index (MessageMetrics (replay events (NewPeer peerId))) topicName
  = metricOf (messageTimes topicName events).
Proof.
  induction events as [| ev events IH] using rev_ind; [reflexivity |].
  rewrite replay_snoc, messageTimes_snoc.
  destruct ev as [direction time | time | succeed err | topic time |]; simpl;
    rewrite ?app_nil_r; try exact IH.
  - unfold ConnectionAttemptEvent. destruct succeed; exact IH.
  - destruct (String.eqb topic topicName) eqn:Htopic.
    + apply String.eqb_eq in Htopic. subst topic.
      rewrite index_insert_eq, metricOf_snoc, IH.
      destruct (metricOf (messageTimes topicName events)); reflexivity.
    + apply String.eqb_neq in Htopic.
      rewrite index_insert_ne by exact Htopic. rewrite app_nil_r. exact IH.
  - apply index_empty.
Qed.

(** X3: the metric of a topic, from the calls made on the peer since
    [NewPeer].  It exists exactly when a message of the topic arrived after
    the last reset; it then counts these messages modulo 2^64 and keeps the
    time of the first and of the last of them.  Messages of other topics and
    the other methods leave it alone.  [GetNumOfMsgFromTopic] returns that
    count, 0 without a message. *)
Theorem messages_follow_history (peerId : string) (events : list PeerEvent)
    (shortTopic : string) :
  let pm := replay events (NewPeer peerId) in
  let times := messageTimes (ShortToFullTopicName shortTopic) events in
  index (MessageMetrics pm) (ShortToFullTopicName shortTopic) = metricOf times /\
  GetNumOfMsgFromTopic pm shortTopic = wrap64 (N.of_nat (length times)).
Proof.
  cbv zeta. split; [apply index_follows_history |].
  unfold GetNumOfMsgFromTopic. rewrite index_follows_history.
  destruct (messageTimes (ShortToFullTopicName shortTopic) events); reflexivity.
Qed.

Lemma sumCounts_total (entries : list (string * option MessageMetric)) (total : N) :
  noNilEntry entries ->
  sumCounts entries (wrap64 total) = Some (wrap64 (total + totalCount entries)).
Proof.
  revert total. induction entries as [| [k ptr] entries IH]; intros total Hall; simpl.
  - rewrite N.add_0_r. reflexivity.
  - inversion Hall as [| e es Hhead Htail]; subst. destruct Hhead as [mm Hmm].
    simpl in Hmm. subst ptr.
    rewrite wrap64_add_l, IH by exact Htail.
    unfold countOf. simpl. f_equal. f_equal. lia.
Qed.

Lemma totalCount_perm (l1 l2 : list (string * option MessageMetric)) :
  l1 ≡ₚ l2 -> totalCount l1 = totalCount l2.
Proof.
  induction 1 as [| x l1 l2 _ IH | x y l | l1 l2 l3 _ IH1 _ IH2]; simpl.
  - reflexivity.
  - rewrite IH. reflexivity.
  - lia.
  - congruence.
Qed.

Lemma noNilEntry_perm (l1 l2 : list (string * option MessageMetric)) :
  l1 ≡ₚ l2 -> noNilEntry l1 -> noNilEntry l2.
Proof. unfold noNilEntry. intros Hperm. rewrite Hperm. auto. Qed.

(** One more message: no [nil] entry appears and the sum of the counts
    grows by one, modulo 2^64. *)
Lemma MessageEvent_total (pm : Peer) (topicName : string) (time : Time) :
  noNilEntry (map_to_list (MessageMetrics pm)) ->
  noNilEntry (map_to_list (MessageMetrics (MessageEvent pm topicName time))) /\
  wrap64 (totalCount (map_to_list (MessageMetrics (MessageEvent pm topicName time))))
  = wrap64 (totalCount (map_to_list (MessageMetrics pm)) + 1).
Proof.
  intros Hnil. unfold MessageEvent. simpl. unfold index.
  destruct (MessageMetrics pm !! topicName) as [ptr |] eqn:Hlookup.
  - pose proof (map_to_list_delete _ _ _ Hlookup) as Hperm.
    assert (Hptr : is_Some ptr).
    { apply (noNilEntry_perm _ _ (symmetry Hperm)) in Hnil.
      inversion Hnil; subst; assumption. }
    destruct Hptr as [mm ->].
    rewrite <- (insert_delete_eq (MessageMetrics pm)).
    match goal with |- context [<[topicName := ?v]> _] => set (counted := v) end.
    pose proof (map_to_list_insert (delete topicName (MessageMetrics pm))
                  topicName counted (lookup_delete_eq _ _)) as Hins.
    split.
    + apply (noNilEntry_perm _ _ (symmetry Hins)).
      apply (noNilEntry_perm _ _ (symmetry Hperm)) in Hnil.
      inversion Hnil; subst. constructor; [subst counted; simpl; eauto | assumption].
    + rewrite (totalCount_perm _ _ Hins), <- (totalCount_perm _ _ Hperm).
      simpl. unfold countOf. simpl.
      rewrite <- N.add_assoc, wrap64_add_l. f_equal. lia.
  - match goal with |- context [<[topicName := ?v]> _] => set (counted := v) end.
    pose proof (map_to_list_insert (MessageMetrics pm) topicName counted Hlookup) as Hins.
    split.
    + apply (noNilEntry_perm _ _ (symmetry Hins)).
      constructor; [subst counted; simpl; eauto | assumption].
    + rewrite (totalCount_perm _ _ Hins). simpl. unfold countOf. simpl.
      replace (wrap64 (0 + 1)) with 1%N by reflexivity. f_equal. lia.
Qed.

Lemma replay_total (peerId : string) (events : list PeerEvent) :
  let m := MessageMetrics (replay events (NewPeer peerId)) in
  noNilEntry (map_to_list m) /\
  wrap64 (totalCount (map_to_list m))
  = wrap64 (N.of_nat (length (List.filter isMessage (sinceReset events)))).
Proof.
  cbv zeta. induction events as [| ev events IH] using rev_ind.
  - simpl. rewrite map_to_list_empty. split; [constructor | reflexivity].
  - destruct IH as [Hnil Htotal].
    rewrite replay_snoc, sinceReset_snoc.
    destruct ev as [direction time | time | succeed err | topic time |];
      cbn [applyEvent isReset]; rewrite ?filter_snoc; cbn [isMessage];
      rewrite ?app_nil_r.
    + auto.
    + auto.
    + unfold ConnectionAttemptEvent. destruct succeed; simpl; auto.
    + destruct (MessageEvent_total (replay events (NewPeer peerId)) topic time Hnil)
        as [Hnil' Htotal'].
      split; [exact Hnil' |].
      rewrite Htotal', <- wrap64_add_l, Htotal, wrap64_add_l.
      f_equal. rewrite length_app. simpl. lia.
    + simpl. rewrite map_to_list_empty. split; [constructor | reflexivity].
Qed.

(** X4: on a peer built by the methods since [NewPeer],
    [GetAllMessagesCount] does not panic and returns the number of messages
    of all topics received after the last reset, modulo 2^64, in whatever
    order the loop visits the entries of the map. *)
Theorem all_messages_follow_history (peerId : string) (events : list PeerEvent)
    (entries : list (string * option MessageMetric)) :
  entries ≡ₚ map_to_list (MessageMetrics (replay events (NewPeer peerId))) ->
  sumCounts entries 0
  = Some (wrap64 (N.of_nat (length (List.filter isMessage (sinceReset events))))) /\
  GetAllMessagesCount (replay events (NewPeer peerId)) = sumCounts entries 0.
Proof.
  intros Hperm.
  destruct (replay_total peerId events) as [Hnil Htotal]. cbv zeta in Hnil, Htotal.
  assert (Hsum : forall l,
             l ≡ₚ map_to_list (MessageMetrics (replay events (NewPeer peerId))) ->
             sumCounts l 0
             = Some (wrap64 (N.of_nat (length (List.filter isMessage (sinceReset events)))))).
  { intros l Hl.
    change 0%N with (wrap64 0).
    rewrite sumCounts_total by (apply (noNilEntry_perm _ _ (symmetry Hl)); exact Hnil).
    rewrite N.add_0_l, (totalCount_perm _ _ Hl). f_equal. exact Htotal. }
  split; [apply Hsum; exact Hperm |].
  unfold GetAllMessagesCount. rewrite (Hsum entries Hperm). apply Hsum. reflexivity.
Qed.

Lemma sumCounts_nil_entry (entries : list (string * option MessageMetric))
    (topicName : string) (total : N) :
  (topicName, None) ∈ entries -> sumCounts entries total = None.
Proof.
  revert total. induction entries as [| [k ptr] entries IH]; intros total Hin.
  - inversion Hin.
  - simpl. destruct ptr as [mm |]; [| reflexivity].
    apply IH. inversion Hin; subst; try discriminate; assumption.
Qed.

(** X5: a [nil] pointer stored in the map makes [GetAllMessagesCount]
    panic, in whatever order the entries are visited, while
    [GetNumOfMsgFromTopic] on that topic returns 0. *)
Theorem nil_entry_breaks_total (pm : Peer) (shortTopic : string)
    (entries : list (string * option MessageMetric)) :
  MessageMetrics pm !! ShortToFullTopicName shortTopic = Some None ->
  entries ≡ₚ map_to_list (MessageMetrics pm) ->
  sumCounts entries 0 = None /\
  GetAllMessagesCount pm = None /\
  GetNumOfMsgFromTopic pm shortTopic = 0%N.
Proof.
  intros Hlookup Hperm.
  assert (Hin : (ShortToFullTopicName shortTopic, None) ∈ map_to_list (MessageMetrics pm)).
  { apply elem_of_map_to_list. exact Hlookup. }
  split; [| split].
  - apply (sumCounts_nil_entry _ (ShortToFullTopicName shortTopic)).
    rewrite Hperm. exact Hin.
  - apply (sumCounts_nil_entry _ (ShortToFullTopicName shortTopic)). exact Hin.
  - unfold GetNumOfMsgFromTopic, index. rewrite Hlookup. reflexivity.
Qed.

Open Scope Z_scope.


Lemma Sub_negative (t u : Time) : t < u -> Sub t u < 0.
Proof. unfold Sub, minDuration, maxDuration. lia. Qed.

Lemma wrapInt64_exact (z : Z) :
  minDuration <= z <= maxDuration -> wrapInt64 z = z.
Proof.
  unfold wrapInt64, minDuration, maxDuration. intros Hz.
  rewrite Z.mod_small; lia.
Qed.

Lemma wrapInt64_range (z : Z) : minDuration <= wrapInt64 z <= maxDuration.
Proof.
  unfold wrapInt64, minDuration, maxDuration.
  pose proof (Z.mod_pos_bound (z + 2 ^ 63) (2 ^ 64)). lia.
Qed.

Lemma singleConnectionTime_skips (conTime : Time) (earlier later : list Time) :
  Forall (fun discTime => discTime < conTime) earlier ->
  singleConnectionTime conTime (earlier ++ later) = singleConnectionTime conTime later.
Proof.
  induction 1 as [| discTime earlier Hlt _ IH]; [reflexivity |].
  simpl. pose proof (Sub_negative discTime conTime Hlt) as Hneg.
  destruct (Z.leb_spec 0 (Sub discTime conTime)); [lia | exact IH].
Qed.





Lemma connectedTimeLoop_app (conTimes more discTimes : list Time) (total : Z) :
  connectedTimeLoop (conTimes ++ more) discTimes total
  = connectedTimeLoop more discTimes (connectedTimeLoop conTimes discTimes total).
Proof.
  revert total. induction conTimes as [| conTime conTimes IH]; intros total; simpl.
  - reflexivity.
  - apply IH.
Qed.

Lemma connectedTimeLoop_range (conTimes discTimes : list Time) (total : Z) :
  minDuration <= total <= maxDuration ->
  minDuration <= connectedTimeLoop conTimes discTimes total <= maxDuration.
Proof.
  revert total. induction conTimes as [| conTime conTimes IH]; intros total Htotal; simpl.
  - exact Htotal.
  - apply IH. apply wrapInt64_range.
Qed.

(** X7: a connection later than every recorded disconnection adds nothing:
    the time a peer has been connected since its last connection is not
    counted until it disconnects. *)
Theorem open_connection_not_counted (pm : Peer) (direction : string) (time : Time) :
  Forall (fun discTime => discTime < time) (DisconnectionTimes pm) ->
  totalConnectedTime (ConnectionEvent pm direction time) = totalConnectedTime pm.
Proof.
  intros Hbefore. unfold totalConnectedTime, ConnectionEvent. simpl.
  rewrite connectedTimeLoop_app. simpl.
  rewrite <- (app_nil_r (DisconnectionTimes pm)) at 2.
  rewrite singleConnectionTime_skips by exact Hbefore. simpl.
  rewrite Z.add_0_r. apply wrapInt64_exact. apply connectedTimeLoop_range.
  unfold minDuration, maxDuration. lia.
Qed.

Close Scope Z_scope.

End metrics_histories.

Lemma all_messages_follow_history_witness :
  metrics.GetAllMessagesCount
    (@metrics.replay metrics.plainUtils metrics.sampleHistory (metrics.NewPeer "16Uiu2HAm"))
  = Some 2%N.
Proof.
  destruct (@all_messages_follow_history metrics.plainUtils "16Uiu2HAm"
              metrics.sampleHistory
              (map_to_list
                 (metrics.MessageMetrics
                    (@metrics.replay metrics.plainUtils metrics.sampleHistory
                       (metrics.NewPeer "16Uiu2HAm")))))
    as [Hsum Hall].
  - reflexivity.
  - rewrite Hall, Hsum. reflexivity.
Defined.

Lemma nil_entry_breaks_total_witness :
  metrics.GetAllMessagesCount metrics.nilEntryPeer = None /\
  @metrics.GetNumOfMsgFromTopic metrics.plainUtils metrics.nilEntryPeer "BeaconBlock" = 0%N.
Proof.
  destruct (@nil_entry_breaks_total metrics.plainUtils metrics.nilEntryPeer "BeaconBlock"
              (map_to_list (metrics.MessageMetrics metrics.nilEntryPeer)))
    as (_ & Hall & Hnum).
  - vm_compute. reflexivity.
  - reflexivity.
  - split; [exact Hall | exact Hnum].
Defined.


Lemma open_connection_not_counted_witness :
  metrics.totalConnectedTime
    (metrics.ConnectionEvent
       (@metrics.replay metrics.plainUtils
          (metrics.sessionEvents metrics.sampleSessions) (metrics.NewPeer "16Uiu2HAm"))
       "outbound" 500%Z)
  = 210%Z.
Proof.
  rewrite open_connection_not_counted.
  - vm_compute. reflexivity.
  - vm_compute. repeat constructor.
Defined.

(** * Further properties of package [postgresql]: runs of the persister *)

Section persister_runs.
Import postgresql.

Lemma flushBatch_eq (c : DBClient) :
  flushBatch c
  = MkDBClient (ctxDone c) (Network c) (loginStr c)
      (persistBatchFn (batch c) (psqlPool c)).2
      (persistC c) (doneC c) (wg c) (pc c) [] (readyToFinish c) (tickerC c)
      (logged c ++ match (persistBatchFn (batch c) (psqlPool c)).1 with
                   | Some e => [e]
                   | None => []
                   end)
      (closing c).
Proof.
  unfold flushBatch. destruct (persistBatchFn (batch c) (psqlPool c)) as [[e |] db];
    destruct c; simpl; rewrite ?app_nil_r; reflexivity.
Qed.

Lemma onTick_eq (c : DBClient) :
  onTick c
  = MkDBClient (ctxDone c) (Network c) (loginStr c)
      (persistBatchFn (batch c) (psqlPool c)).2
      (persistC c) (doneC c) (wg c) LoopHead [] (readyToFinish c) false
      (logged c ++ match (persistBatchFn (batch c) (psqlPool c)).1 with
                   | Some e => [e]
                   | None => []
                   end)
      (closing c).
Proof. unfold onTick. rewrite flushBatch_eq. destruct c; reflexivity. Qed.

Lemma onReceive_eq (obj : Obj) (rest : list Obj) (c : DBClient) :
  onReceive obj rest c
  = let full := persistObj (batch c) obj in
    if isReadyToPersistFn full
    then MkDBClient (ctxDone c) (Network c) (loginStr c)
           (persistBatchFn full (psqlPool c)).2
           rest (doneC c) (wg c) LoopHead [] (readyToFinish c) (tickerC c)
           (logged c ++ match (persistBatchFn full (psqlPool c)).1 with
                        | Some e => [e]
                        | None => []
                        end)
           (closing c)
    else MkDBClient (ctxDone c) (Network c) (loginStr c) (psqlPool c)
           rest (doneC c) (wg c) LoopHead full (readyToFinish c) (tickerC c)
           (logged c) (closing c).
Proof.
  cbv zeta. unfold onReceive. destruct c; simpl.
  destruct (isReadyToPersistFn _); [rewrite flushBatch_eq |]; reflexivity.
Qed.

Lemma fromLoopHead_eq (pick : bool) (c : DBClient) :
  fromLoopHead pick c
  = if readyToFinish c && (length (persistC c) =? 0)%nat
    then MkDBClient (ctxDone c) (Network c) (loginStr c) (psqlPool c) (persistC c)
           (doneC c) (wg c - 1) Stopped (batch c) (readyToFinish c) (tickerC c)
           (logged c) (closing c)
    else
      let received := doneC c && negb (ctxDone c && pick) in
      MkDBClient (ctxDone c) (Network c) (loginStr c) (psqlPool c) (persistC c)
        (if received then false else doneC c) (wg c) SecondSelect (batch c)
        (readyToFinish c || ctxDone c || doneC c) (tickerC c) (logged c)
        (if received then CloseWaiting else closing c).
Proof.
  unfold fromLoopHead. destruct c as [x nw ls pool q d w k b r t l cl]; simpl.
  destruct (r && (length q =? 0)%nat); [reflexivity |].
  destruct x, d, pick, r; reflexivity.
Qed.

Lemma submitted_app (cs1 cs2 : list StoreCall) :
  submitted (cs1 ++ cs2) = submitted cs1 ++ submitted cs2.
Proof. unfold submitted. apply flat_map_app. Qed.

Lemma submitted_queries (n : nat) : submitted (replicate n Query) = [].
Proof. induction n as [| n IH]; [reflexivity | exact IH]. Qed.

(** With a store whose transactions open, a flush hands the whole batch to
    the store, in order. *)
Lemma persistBatchFn_submits (b : Batch) (db : Store) :
  beginsSucceed db ->
  submitted (calls (persistBatchFn b db).2) = submitted (calls db) ++ b /\
  beginsSucceed (persistBatchFn b db).2.
Proof.
  intros Hok. unfold persistBatchFn.
  destruct b as [| op b]; [simpl; rewrite app_nil_r; auto |].
  cbn [length Nat.eqb]. unfold poolBegin.
  assert (Hhead : beginErr (hd okReply (txReplies db)) = None).
  { unfold beginsSucceed in Hok. destruct (txReplies db); [reflexivity |].
    inversion Hok; subst; assumption. }
  assert (Htail : Forall (fun reply => beginErr reply = None) (tl (txReplies db))).
  { unfold beginsSucceed in Hok. destruct (txReplies db); [constructor |].
    inversion Hok; subst; assumption. }
  rewrite Hhead.
  destruct (queryLoop (queryErrs (hd okReply (txReplies db))) 0) as [qerr cnt].
  destruct (negb (String.eqb qerr noQueryResult)); unfold called, beginsSucceed;
    cbn [snd calls txReplies]; rewrite !submitted_app, submitted_queries;
    simpl; rewrite ?app_nil_r; auto.
Qed.

Lemma step_tracks (base : list WriteOp) (history : list Obj) (a : Action)
    (c c' : DBClient) :
  step a c = Some c' ->
  tracks base history c ->
  tracks base (history ++ enqueued [a]) c'.
Proof.
  intros Hstep (Hok & received & sent & Hhist & Hsent & Hops).
  destruct a as [obj | | | | | pick]; simpl in Hstep; simpl enqueued;
    rewrite ?app_nil_r.
  - destruct (closing c); try discriminate;
      destruct (length (persistC c) <? batchSize)%nat; try discriminate;
      injection Hstep as <-; (split; [destruct c; exact Hok |]);
      exists received, sent; destruct c; simpl in *;
      rewrite Hhist, <- app_assoc; auto.
  - injection Hstep as <-. split; [destruct c; exact Hok |].
    exists received, sent. destruct c; simpl in *; auto.
  - destruct (pc c); try discriminate; injection Hstep as <-;
      (split; [destruct c; exact Hok |]);
      exists received, sent; destruct c; simpl in *; auto.
  - destruct (closing c); try discriminate. injection Hstep as <-.
    split; [destruct c; exact Hok |].
    exists received, sent. destruct c; simpl in *; auto.
  - destruct (closing c); try discriminate. destruct (wg c); try discriminate.
    injection Hstep as <-. split; [destruct c; exact Hok |].
    exists received, sent. destruct c; simpl in *.
    rewrite submitted_app, Hsent. simpl. rewrite app_nil_r. auto.
  - assert (Hreceive : forall obj rest, persistC c = obj :: rest ->
                                        tracks base history (onReceive obj rest c)).
    { intros obj rest Hqueue. rewrite onReceive_eq. cbv zeta.
      rewrite persistObj_operationsOf.
      destruct (persistBatchFn_submits (batch c ++ operationsOf obj) (psqlPool c) Hok)
        as [Hsub Hok'].
      destruct (isReadyToPersistFn (batch c ++ operationsOf obj)).
      - split; [exact Hok' |].
        exists (received ++ [obj]), (sent ++ batch c ++ operationsOf obj). simpl.
        rewrite Hsub, Hsent, Hhist, Hqueue, flat_map_app, Hops. simpl.
        rewrite !app_nil_r, <- !app_assoc. auto.
      - split; [exact Hok |].
        exists (received ++ [obj]), sent. simpl.
        rewrite Hhist, Hqueue, flat_map_app, Hops. simpl.
        rewrite !app_nil_r, <- !app_assoc. auto. }
    assert (Htick : tracks base history (onTick c)).
    { rewrite onTick_eq.
      destruct (persistBatchFn_submits (batch c) (psqlPool c) Hok) as [Hsub Hok'].
      split; [exact Hok' |].
      exists received, (sent ++ batch c). simpl.
      rewrite Hsub, Hsent, Hops, !app_nil_r, <- !app_assoc. auto. }
    destruct (pc c); try discriminate.
    + injection Hstep as <-. rewrite fromLoopHead_eq.
      destruct (readyToFinish c && (length (persistC c) =? 0)%nat);
        (split; [exact Hok |]); exists received, sent; simpl; auto.
    + unfold fromSecondSelect in Hstep.
      destruct (persistC c) as [| obj rest] eqn:Hqueue, (tickerC c), pick;
        try discriminate; injection Hstep as <-; auto.
Qed.

Lemma enqueued_cons (a : Action) (schedule : list Action) :
  enqueued (a :: schedule) = enqueued [a] ++ enqueued schedule.
Proof. unfold enqueued. simpl. rewrite app_nil_r. reflexivity. Qed.

Lemma run_tracks (base : list WriteOp) (schedule : list Action) :
  forall (history : list Obj) (c c' : DBClient),
    run schedule c = Some c' ->
    tracks base history c ->
    tracks base (history ++ enqueued schedule) c'.
Proof.
  induction schedule as [| a schedule IH]; intros history c c' Hrun Htracks.
  - simpl in Hrun. injection Hrun as <-. simpl. rewrite app_nil_r. exact Htracks.
  - simpl in Hrun. destruct (step a c) as [c1 |] eqn:Hstep; [| discriminate].
    rewrite enqueued_cons, app_assoc.
    apply (IH _ c1 c' Hrun). apply (step_tracks base history a c c1 Hstep Htracks).
Qed.

Lemma initEach_store (steps : list (string * string)) (db : Store) :
  txReplies (initEach steps db).2 = txReplies db /\
  submitted (calls (initEach steps db).2) = submitted (calls db) /\
  List.filter isPoolClose (calls (initEach steps db).2) = List.filter isPoolClose (calls db).
Proof.
  revert db. induction steps as [| [table message] steps IH]; intros db; simpl.
  - auto.
  - destruct (initErr db table); simpl.
    + rewrite submitted_app, List.filter_app. simpl. rewrite !app_nil_r. auto.
    + destruct (IH (called [InitTable table] db)) as (-> & -> & ->). simpl.
      rewrite submitted_app, List.filter_app. simpl. rewrite !app_nil_r. auto.
Qed.

Lemma NewDBClient_store (ctx : bool) (nw login : string) (initialized : bool)
    (db db' : Store) (c : DBClient) (err : option error) :
  NewDBClient ctx nw login initialized db = (Some c, err, db') ->
  psqlPool c = db' /\ persistC c = [] /\ batch c = [] /\
  ctxDone c = ctx /\ doneC c = false /\ readyToFinish c = false /\
  pc c = LoopHead /\ wg c = 1 /\ closing c = CloseIdle /\ tickerC c = false /\
  txReplies db' = txReplies db /\
  submitted (calls db') = submitted (calls db) /\
  List.filter isPoolClose (calls db') = List.filter isPoolClose (calls db).
Proof.
  unfold NewDBClient. intros Hnew.
  destruct (String.length login =? 0)%nat; [discriminate |].
  simpl in Hnew.
  destruct (connectErr db); [discriminate |].
  destruct (pingErr db); [discriminate |].
  destruct initialized.
  - pose proof (initEach_store tableSteps
                  (called [Ping] (called [Connect login] db))) as Hinit.
    change (initEach tableSteps (called [Ping] (called [Connect login] db)))
      with (initTables (called [Ping] (called [Connect login] db))) in Hinit.
    destruct (initTables (called [Ping] (called [Connect login] db))) as [ierr db1].
    destruct ierr; [discriminate |].
    injection Hnew as <- <- <-. simpl in Hinit. destruct Hinit as (-> & -> & ->).
    simpl. rewrite !submitted_app, !List.filter_app. simpl. rewrite !app_nil_r.
    repeat split.
  - injection Hnew as <- <- <-. simpl.
    rewrite !submitted_app, !List.filter_app. simpl. rewrite !app_nil_r.
    repeat split.
Qed.

(** X8: as long as the store opens every transaction, no operation is lost,
    duplicated or reordered.  After any schedule from a new client, the
    records sent so far are those received followed by those still in the
    channel, and the operations of the received records, in the order of
    the mapper, are exactly the batches handed to the store since the
    client was created, in order, followed by the open batch. *)
Theorem operations_reach_store_in_order (ctx : bool) (nw login : string)
    (initialized : bool) (db db' : Store) (c c' : DBClient) (err : option error)
    (schedule : list Action) :
  NewDBClient ctx nw login initialized db = (Some c, err, db') ->
  beginsSucceed db ->
  run schedule c = Some c' ->
  exists received sent,
    enqueued schedule = received ++ persistC c' /\
    submitted (calls (psqlPool c')) = submitted (calls db) ++ sent /\
    flat_map operationsOf received = sent ++ batch c'.
Proof.
  intros Hnew Hok Hrun.
  destruct (NewDBClient_store _ _ _ _ _ _ _ _ Hnew)
    as (Hpool & Hqueue & Hbatch & _ & _ & _ & _ & _ & _ & _ & Hreplies & Hsub & _).
  assert (Hinit : tracks (submitted (calls db)) [] c).
  { split.
    - unfold beginsSucceed. rewrite Hpool, Hreplies. exact Hok.
    - exists [], []. rewrite Hqueue, Hbatch, Hpool, Hsub, !app_nil_r. auto. }
  destruct (run_tracks _ schedule [] c c' Hrun Hinit) as (_ & received & sent & H1 & H2 & H3).
  exists received, sent. auto.
Qed.

Lemma step_running (a : Action) (c c' : DBClient) :
  step a c = Some c' ->
  isShutdownSignal a = false ->
  ctxDone c = false /\ doneC c = false /\ readyToFinish c = false /\
    (pc c = LoopHead \/ pc c = SecondSelect) ->
  ctxDone c' = false /\ doneC c' = false /\ readyToFinish c' = false /\
    (pc c' = LoopHead \/ pc c' = SecondSelect).
Proof.
  intros Hstep Hsignal (Hctx & Hdone & Hready & Hpc).
  destruct a as [obj | | | | | pick]; simpl in Hstep, Hsignal; try discriminate.
  - destruct (closing c); try discriminate;
      destruct (length (persistC c) <? batchSize)%nat; try discriminate;
      injection Hstep as <-; destruct c; simpl in *; repeat split; assumption.
  - destruct Hpc as [Hpc | Hpc]; rewrite Hpc in Hstep; injection Hstep as <-;
      destruct c; simpl in *; repeat split; auto.
  - destruct (closing c); try discriminate. destruct (wg c); try discriminate.
    injection Hstep as <-. destruct c; simpl in *; repeat split; assumption.
  - destruct Hpc as [Hpc | Hpc]; rewrite Hpc in Hstep.
    + injection Hstep as <-. rewrite fromLoopHead_eq, Hready, Hctx, Hdone. simpl.
      repeat split; auto.
    + unfold fromSecondSelect in Hstep.
      destruct (persistC c) as [| obj rest], (tickerC c), pick; try discriminate;
        injection Hstep as <-; rewrite ?onReceive_eq, ?onTick_eq; cbv zeta;
        try destruct (isReadyToPersistFn _); simpl; repeat split; auto.
Qed.

Lemma run_running (schedule : list Action) :
  forall (c c' : DBClient),
    run schedule c = Some c' ->
    existsb isShutdownSignal schedule = false ->
    ctxDone c = false /\ doneC c = false /\ readyToFinish c = false /\
      (pc c = LoopHead \/ pc c = SecondSelect) ->
    ctxDone c' = false /\ doneC c' = false /\ readyToFinish c' = false /\
      (pc c' = LoopHead \/ pc c' = SecondSelect).
Proof.
  induction schedule as [| a schedule IH]; intros c c' Hrun Hsignal Hinv; simpl in Hrun.
  - injection Hrun as <-. exact Hinv.
  - destruct (step a c) as [c1 |] eqn:Hstep; [| discriminate].
    simpl in Hsignal. apply orb_false_elim in Hsignal as [Ha Hrest].
    apply (IH c1 c' Hrun Hrest). apply (step_running a c c1 Hstep Ha Hinv).
Qed.

(** X9: the persister does not stop on its own.  From a client created
    with a live context, whatever the records, the ticks and the answers of
    the store, a schedule without context cancellation and without a call
    of [Close] leaves the goroutine in the loop with [readyToFinish] unset. *)
Theorem persister_runs_until_signalled (nw login : string) (initialized : bool)
    (db db' : Store) (c c' : DBClient) (err : option error) (schedule : list Action) :
  NewDBClient false nw login initialized db = (Some c, err, db') ->
  existsb isShutdownSignal schedule = false ->
  run schedule c = Some c' ->
  (pc c' = LoopHead \/ pc c' = SecondSelect) /\ readyToFinish c' = false.
Proof.
  intros Hnew Hsignal Hrun.
  destruct (NewDBClient_store _ _ _ _ _ _ _ _ Hnew)
    as (_ & _ & _ & Hctx & Hdone & Hready & Hpc & _).
  destruct (run_running schedule c c' Hrun Hsignal) as (_ & _ & Hready' & Hpc'); auto.
Qed.

Lemma step_stopped (a : Action) (c c' : DBClient) :
  step a c = Some c' ->
  pc c = Stopped ->
  pc c' = Stopped /\ batch c' = batch c /\
  persistC c' = persistC c ++ enqueued [a] /\
  submitted (calls (psqlPool c')) = submitted (calls (psqlPool c)) /\
  countBegin (calls (psqlPool c')) = countBegin (calls (psqlPool c)).
Proof.
  intros Hstep Hpc.
  destruct a as [obj | | | | | pick]; simpl in Hstep; simpl enqueued.
  - destruct (closing c); try discriminate;
      destruct (length (persistC c) <? batchSize)%nat; try discriminate;
      injection Hstep as <-; destruct c; simpl in *; repeat split; auto.
  - injection Hstep as <-. destruct c; simpl in *; rewrite app_nil_r; repeat split; auto.
  - rewrite Hpc in Hstep. injection Hstep as <-.
    destruct c; simpl in *; rewrite app_nil_r; repeat split; auto.
  - destruct (closing c); try discriminate. injection Hstep as <-.
    destruct c; simpl in *; rewrite app_nil_r; repeat split; auto.
  - destruct (closing c); try discriminate. destruct (wg c); try discriminate.
    injection Hstep as <-. destruct c; simpl in *.
    rewrite app_nil_r, submitted_app, countBegin_app. simpl.
    rewrite app_nil_r. change (countBegin [PoolClose]) with 0. repeat split; auto.
  - rewrite Hpc in Hstep. discriminate.
Qed.

(** X10: once the persister has returned, it stays so: the operations
    left in the batch are never handed to the store, no transaction is
    opened any more, and the records sent afterwards only pile up in the
    channel. *)
Theorem stopped_persister_persists_nothing (schedule : list Action) :
  forall (c c' : DBClient),
    pc c = Stopped ->
    run schedule c = Some c' ->
    pc c' = Stopped /\ batch c' = batch c /\
    persistC c' = persistC c ++ enqueued schedule /\
    submitted (calls (psqlPool c')) = submitted (calls (psqlPool c)) /\
    countBegin (calls (psqlPool c')) = countBegin (calls (psqlPool c)).
Proof.
  induction schedule as [| a schedule IH]; intros c c' Hpc Hrun; simpl in Hrun.
  - injection Hrun as <-. simpl. rewrite app_nil_r. repeat split; auto.
  - destruct (step a c) as [c1 |] eqn:Hstep; [| discriminate].
    destruct (step_stopped a c c1 Hstep Hpc) as (Hpc1 & Hb & Hq & Hs & Hn).
    destruct (IH c1 c' Hpc1 Hrun) as (Hpc' & Hb' & Hq' & Hs' & Hn').
    rewrite enqueued_cons, app_assoc, <- Hq, <- Hb, <- Hs, <- Hn. repeat split; auto.
Qed.

Lemma step_close_blocked (a : Action) (c c' : DBClient) :
  step a c = Some c' ->
  pc c = Stopped /\ (closing c = CloseIdle \/ closing c = CloseSending) ->
  (pc c' = Stopped /\ (closing c' = CloseIdle \/ closing c' = CloseSending)) /\
  calls (psqlPool c') = calls (psqlPool c).
Proof.
  intros Hstep [Hpc Hclosing].
  destruct a as [obj | | | | | pick]; simpl in Hstep.
  - destruct Hclosing as [Hcl | Hcl]; rewrite Hcl in Hstep;
      destruct (length (persistC c) <? batchSize)%nat; try discriminate;
      injection Hstep as <-; destruct c; simpl in *; auto.
  - injection Hstep as <-. destruct c; simpl in *; auto.
  - rewrite Hpc in Hstep. injection Hstep as <-. destruct c; simpl in *; auto.
  - destruct (closing c); try discriminate. injection Hstep as <-.
    destruct c; simpl in *; auto.
  - destruct Hclosing as [Hcl | Hcl]; rewrite Hcl in Hstep; discriminate.
  - rewrite Hpc in Hstep. discriminate.
Qed.

(** X11: when the persister has returned before [Close] is called, as it
    does after the context is cancelled, [Close] never returns: nobody
    receives from [doneC], so the call stays blocked in its send and the
    pool is never closed. *)
Theorem close_after_stop_never_returns (schedule : list Action) :
  forall (c c' : DBClient),
    pc c = Stopped ->
    closing c = CloseIdle ->
    run schedule c = Some c' ->
    closing c' <> CloseReturned /\ closing c' <> CloseWaiting /\
    calls (psqlPool c') = calls (psqlPool c).
Proof.
  assert (Hgen : forall schedule c c',
             pc c = Stopped /\ (closing c = CloseIdle \/ closing c = CloseSending) ->
             run schedule c = Some c' ->
             (closing c' = CloseIdle \/ closing c' = CloseSending) /\
             calls (psqlPool c') = calls (psqlPool c)).
  { clear schedule. induction schedule as [| a schedule IH]; intros c c' Hinv Hrun;
      simpl in Hrun.
    - injection Hrun as <-. destruct Hinv; auto.
    - destruct (step a c) as [c1 |] eqn:Hstep; [| discriminate].
      destruct (step_close_blocked a c c1 Hstep Hinv) as [Hinv1 Hcalls].
      destruct (IH c1 c' Hinv1 Hrun) as [Hcl Hcalls']. rewrite Hcalls', Hcalls. auto. }
  intros c c' Hpc Hcl Hrun.
  destruct (Hgen schedule c c' (conj Hpc (or_introl Hcl)) Hrun) as [[Hc | Hc] Hcalls];
    rewrite Hc; repeat split; try discriminate; exact Hcalls.
Qed.





Lemma called_called (cs1 cs2 : list StoreCall) (db : Store) :
  called cs2 (called cs1 db) = called (cs1 ++ cs2) db.
Proof. unfold called. simpl. rewrite app_assoc. reflexivity. Qed.

Lemma called_nil (db : Store) : called [] db = db.
Proof. unfold called. rewrite app_nil_r. destruct db; reflexivity. Qed.

Lemma initEach_all_ok (steps : list (string * string)) (db : Store) :
  Forall (fun step => initErr db step.1 = None) steps ->
  initEach steps db = (None, called (map (fun step => InitTable step.1) steps) db).
Proof.
  revert db. induction steps as [| [table message] steps IH]; intros db Hok; simpl.
  - rewrite called_nil. reflexivity.
  - inversion Hok as [| s ss Hhead Htail]; subst. simpl in Hhead. rewrite Hhead.
    rewrite IH by exact Htail. rewrite called_called. reflexivity.
Qed.

Lemma initEach_first_error (done later : list (string * string))
    (table message : string) (cause : error) (db : Store) :
  Forall (fun step => initErr db step.1 = None) done ->
  initErr db table = Some cause ->
  initEach (done ++ (table, message) :: later) db
  = (Some (String.append message (String.append ": " cause)),
     called (map (fun step => InitTable step.1) (done ++ [(table, message)])) db).
Proof.
  revert db. induction done as [| [t m] done IH]; intros db Hok Herr; simpl.
  - rewrite Herr. reflexivity.
  - inversion Hok as [| s ss Hhead Htail]; subst. simpl in Hhead. rewrite Hhead.
    rewrite IH by assumption. rewrite called_called. reflexivity.
Qed.

(** X14: [initTables] runs the five initialisations in the order
    peer_info, conn_events, ips, eth_nodes, eth_status.  When all succeed it
    returns [nil]; otherwise it stops at the first that fails, returns its
    error wrapped with the message of that table, and does not initialise
    the later tables. *)
Theorem initTables_stops_at_first_error (db : Store) :
  (Forall (fun step => initErr db step.1 = None) tableSteps ->
   initTables db = (None, called (map (fun step => InitTable step.1) tableSteps) db)) /\
  (forall (done later : list (string * string)) (table message : string) (cause : error),
      tableSteps = done ++ (table, message) :: later ->
      Forall (fun step => initErr db step.1 = None) done ->
      initErr db table = Some cause ->
      initTables db
      = (Some (String.append message (String.append ": " cause)),
         called (map (fun step => InitTable step.1) (done ++ [(table, message)])) db)).
Proof.
  split.
  - apply initEach_all_ok.
  - intros done later table message cause Hsteps Hok Herr.
    change (initTables db) with (initEach tableSteps db). rewrite Hsteps.
    apply initEach_first_error; assumption.
Qed.

Lemma initEach_error_iff (steps : list (string * string)) (db : Store) :
  (initEach steps db).1 = None <-> Forall (fun step => initErr db step.1 = None) steps.
Proof.
  revert db. induction steps as [| [table message] steps IH]; intros db; simpl.
  - split; [constructor | reflexivity].
  - destruct (initErr db table) eqn:Herr; simpl.
    + split; [discriminate |]. intros Hall. inversion Hall; subst. simpl in *. congruence.
    + rewrite IH. split.
      * intros Hall. constructor; [exact Herr | exact Hall].
      * intros Hall. inversion Hall; subst. assumption.
Qed.

(** X15: [NewDBClient] returns a client exactly when the connection
    string is not empty, the connection and the ping succeed and, if
    [initialized] is set, the five tables initialise; and it returns a
    [nil] client exactly when it returns a non-nil error. *)
Theorem NewDBClient_succeeds_iff (ctx : bool) (nw login : string)
    (initialized : bool) (db : Store) :
  (is_Some (NewDBClient ctx nw login initialized db).1.1 <->
   login <> ""%string /\ connectErr db = None /\ pingErr db = None /\
   (initialized = true -> Forall (fun step => initErr db step.1 = None) tableSteps)) /\
  ((NewDBClient ctx nw login initialized db).1.1 = None <->
   (NewDBClient ctx nw login initialized db).1.2 <> None).
Proof.
  assert (Hfails : forall (message : error) (conditions : Prop),
             ~ conditions ->
             (is_Some (@None DBClient) <-> conditions) /\
             (@None DBClient = None <-> Some message <> None)).
  { intros message conditions Hnot. split; split.
    - intros [? ?]. discriminate.
    - intros Hc. contradiction.
    - discriminate.
    - reflexivity. }
  assert (Hsucceeds : forall (c : DBClient) (conditions : Prop),
             conditions ->
             (is_Some (Some c) <-> conditions) /\
             (Some c = None <-> @None error <> None)).
  { intros c conditions Hyes. split; split.
    - intros _. exact Hyes.
    - intros _. eauto.
    - discriminate.
    - congruence. }
  unfold NewDBClient.
  destruct login as [| ch login]; simpl.
  { apply Hfails. intros (Hne & _). congruence. }
  destruct (connectErr db) eqn:Hconnect; simpl.
  { apply Hfails. intros (_ & Hc & _). discriminate. }
  destruct (pingErr db) eqn:Hping; simpl.
  { apply Hfails. intros (_ & _ & Hp & _). discriminate. }
  destruct initialized.
  - pose proof (initEach_error_iff tableSteps
                  (called [Ping] (called [Connect (String ch login)] db))) as Hiff.
    change (initEach tableSteps (called [Ping] (called [Connect (String ch login)] db)))
      with (initTables (called [Ping] (called [Connect (String ch login)] db))) in Hiff.
    simpl initErr in Hiff.
    destruct (initTables (called [Ping] (called [Connect (String ch login)] db)))
      as [ierr db1]. simpl in Hiff.
    destruct ierr as [e |]; simpl.
    + apply Hfails. intros (_ & _ & _ & Hall).
      specialize (Hall eq_refl). apply Hiff in Hall. discriminate.
    + apply Hsucceeds. repeat split; try discriminate.
      intros _. apply Hiff. reflexivity.
  - apply Hsucceeds. repeat split; discriminate.
Qed.

(** X16: what a non-nil result of [persistBatchFn] means.  Either [Begin]
    failed, the error is its cause wrapped with "unable to persist batch"
    and nothing else was asked of the store; or the results were read to
    the "no result" end, [Commit] was called and the error is the one it
    returned. *)
Theorem persistBatchFn_error_means (b : Batch) (db : Store) (e : error) :
  (persistBatchFn b db).1 = Some e ->
  b <> [] /\
  ((exists cause,
       beginErr (hd okReply (txReplies db)) = Some cause /\
       e = String.append "unable to persist batch" (String.append ": " cause) /\
       calls (persistBatchFn b db).2 = calls db ++ [Begin])
   \/ (beginErr (hd okReply (txReplies db)) = None /\
       (queryLoop (queryErrs (hd okReply (txReplies db))) 0).1 = noQueryResult /\
       commitErr (hd okReply (txReplies db)) = Some e /\
       last (calls (persistBatchFn b db).2) = Some Commit)).
Proof.
  unfold persistBatchFn. destruct b as [| op b]; [discriminate |].
  cbn [length Nat.eqb]. unfold poolBegin.
  destruct (beginErr (hd okReply (txReplies db))) as [cause |] eqn:Hbegin.
  - simpl. intros [= <-]. split; [discriminate |]. left. exists cause. auto.
  - destruct (queryLoop (queryErrs (hd okReply (txReplies db))) 0) as [qerr cnt].
    destruct (String.eqb qerr noQueryResult) eqn:Hq; simpl.
    + intros Hcommit. split; [discriminate |]. right.
      apply String.eqb_eq in Hq. repeat split; auto. apply last_snoc.
    + discriminate.
Qed.



Lemma persistBatchFn_no_empty_send (b : Batch) (db : Store) :
  existsb isEmptySend (calls (persistBatchFn b db).2) = existsb isEmptySend (calls db).
Proof.
  assert (Hq : forall n, existsb isEmptySend (replicate n Query) = false).
  { induction n as [| n IH]; [reflexivity | exact IH]. }
  unfold persistBatchFn. destruct b as [| op b]; [reflexivity |].
  cbn [length Nat.eqb]. unfold poolBegin.
  destruct (beginErr (hd okReply (txReplies db))).
  - cbn [snd calls]. rewrite existsb_app. simpl. apply orb_false_r.
  - destruct (queryLoop (queryErrs (hd okReply (txReplies db))) 0) as [qerr cnt].
    destruct (negb (String.eqb qerr noQueryResult)); unfold called; cbn [snd calls];
      rewrite !existsb_app, Hq; simpl; rewrite !orb_false_r; reflexivity.
Qed.

Lemma step_no_empty_send (a : Action) (c c' : DBClient) :
  step a c = Some c' ->
  existsb isEmptySend (calls (psqlPool c')) = existsb isEmptySend (calls (psqlPool c)).
Proof.
  intros Hstep. destruct a as [obj | | | | | pick]; simpl in Hstep.
  - destruct (closing c); try discriminate;
      destruct (length (persistC c) <? batchSize)%nat; try discriminate;
      injection Hstep as <-; destruct c; reflexivity.
  - injection Hstep as <-. destruct c; reflexivity.
  - destruct (pc c); try discriminate; injection Hstep as <-; destruct c; reflexivity.
  - destruct (closing c); try discriminate. injection Hstep as <-. destruct c; reflexivity.
  - destruct (closing c); try discriminate. destruct (wg c); try discriminate.
    injection Hstep as <-. destruct c; cbn [psqlPool setClosing setPool calls called].
    rewrite existsb_app. simpl. apply orb_false_r.
  - destruct (pc c); try discriminate.
    + injection Hstep as <-. rewrite fromLoopHead_eq.
      destruct (readyToFinish c && (length (persistC c) =? 0)%nat); reflexivity.
    + unfold fromSecondSelect in Hstep.
      destruct (persistC c) as [| obj rest], (tickerC c), pick; try discriminate;
        injection Hstep as <-; rewrite ?onReceive_eq, ?onTick_eq; cbv zeta;
        try destruct (isReadyToPersistFn _); cbn [psqlPool];
        rewrite ?persistBatchFn_no_empty_send; reflexivity.
Qed.

(** X17: an empty batch is never sent: whatever the schedule, the
    persister adds no [SendBatch] of an empty batch to the interactions of
    the store (a tick with nothing pending opens no transaction). *)
Theorem no_empty_batch_is_sent (schedule : list Action) :
  forall (c c' : DBClient),
    run schedule c = Some c' ->
    existsb isEmptySend (calls (psqlPool c)) = false ->
    existsb isEmptySend (calls (psqlPool c')) = false.
Proof.
  induction schedule as [| a schedule IH]; intros c c' Hrun Hnone; simpl in Hrun.
  - injection Hrun as <-. exact Hnone.
  - destruct (step a c) as [c1 |] eqn:Hstep; [| discriminate].
    apply (IH c1 c' Hrun). rewrite (step_no_empty_send a c c1 Hstep). exact Hnone.
Qed.


End persister_runs.

(** ** The further properties on concrete runs *)

Lemma operations_reach_store_in_order_witness :
  exists c' received sent,
    postgresql.runFrom postgresql.healthyStore postgresql.overfullSchedule = Some c' /\
    postgresql.enqueued postgresql.overfullSchedule = received ++ postgresql.persistC c' /\
    postgresql.submitted (postgresql.calls (postgresql.psqlPool c')) = sent /\
    flat_map postgresql.operationsOf received = sent ++ postgresql.batch c'.
Proof.
  assert (Hrun : exists c',
             postgresql.runFrom postgresql.healthyStore postgresql.overfullSchedule
             = Some c') by (eexists; vm_compute; reflexivity).
  destruct Hrun as [c' Hrun]. exists c'.
  edestruct (operations_reach_store_in_order false "eth2"%string
               postgresql.sampleEndpoint false postgresql.healthyStore)
    as (received & sent & Hqueue & Hsent & Hops).
  - vm_compute. reflexivity.
  - constructor.
  - exact Hrun.
  - exists received, sent. repeat split; assumption.
Defined.

Lemma persister_runs_until_signalled_witness :
  exists c',
    postgresql.runFrom postgresql.failingBeginStore
      (postgresql.deliver (postgresql.ObjUnrecognized "int")
       ++ postgresql.deliver (postgresql.ObjIpInfo postgresql.sampleIpInfo)
       ++ [postgresql.PersisterRuns true; postgresql.TickerFires;
           postgresql.PersisterRuns true]) = Some c' /\
    (postgresql.pc c' = postgresql.LoopHead \/ postgresql.pc c' = postgresql.SecondSelect) /\
    postgresql.readyToFinish c' = false.
Proof.
  eexists. split; [vm_compute; reflexivity |].
  eapply persister_runs_until_signalled with
    (nw := "eth2"%string) (login := postgresql.sampleEndpoint) (initialized := false)
    (db := postgresql.failingBeginStore)
    (schedule := postgresql.deliver (postgresql.ObjUnrecognized "int")
                 ++ postgresql.deliver (postgresql.ObjIpInfo postgresql.sampleIpInfo)
                 ++ [postgresql.PersisterRuns true; postgresql.TickerFires;
                     postgresql.PersisterRuns true]).
  - vm_compute. reflexivity.
  - vm_compute. reflexivity.
  - vm_compute. reflexivity.
Defined.

Lemma stopped_persister_persists_nothing_witness :
  exists c c',
    postgresql.runFrom postgresql.healthyStore postgresql.strandedSchedule = Some c /\
    postgresql.run
      [postgresql.PersistToDB (postgresql.ObjIpInfo postgresql.sampleIpInfo);
       postgresql.TickerFires] c = Some c' /\
    postgresql.pc c' = postgresql.Stopped /\
    postgresql.batch c' = postgresql.batch c /\
    postgresql.batch c
    = postgresql.operationsOf (postgresql.ObjConnEvent postgresql.sampleConnEvent).
Proof.
  eexists. eexists.
  split; [vm_compute; reflexivity |].
  split; [vm_compute; reflexivity |].
  match goal with
  | |- postgresql.pc ?c' = _ /\ postgresql.batch ?c' = postgresql.batch ?c /\ _ =>
      destruct (stopped_persister_persists_nothing
                  [postgresql.PersistToDB (postgresql.ObjIpInfo postgresql.sampleIpInfo);
                   postgresql.TickerFires] c c')
        as (Hpc & Hbatch & _)
  end.
  - reflexivity.
  - vm_compute. reflexivity.
  - split; [exact Hpc |]. split; [exact Hbatch |]. vm_compute. reflexivity.
Defined.

Lemma close_after_stop_never_returns_witness :
  exists c c',
    postgresql.runFrom postgresql.healthyStore postgresql.strandedSchedule = Some c /\
    postgresql.run [postgresql.CloseCalled; postgresql.TickerFires] c = Some c' /\
    postgresql.closing c' <> postgresql.CloseReturned /\
    postgresql.calls (postgresql.psqlPool c') = postgresql.calls (postgresql.psqlPool c).
Proof.
  eexists. eexists.
  split; [vm_compute; reflexivity |].
  split; [vm_compute; reflexivity |].
  match goal with
  | |- postgresql.closing ?c' <> _ /\
       postgresql.calls (postgresql.psqlPool ?c') = postgresql.calls (postgresql.psqlPool ?c) =>
      destruct (close_after_stop_never_returns
                  [postgresql.CloseCalled; postgresql.TickerFires] c c')
        as (Hreturned & _ & Hcalls)
  end.
  - reflexivity.
  - reflexivity.
  - vm_compute. reflexivity.
  - split; [exact Hreturned | exact Hcalls].
Defined.



Lemma initTables_stops_at_first_error_witness :
  postgresql.initTables postgresql.failingInitStore
  = (Some "initializing ips table: permission denied"%string,
     postgresql.called
       [postgresql.InitTable "InitPeerInfoTable"; postgresql.InitTable "InitConnEventTable";
        postgresql.InitTable "InitIpTable"]
       postgresql.failingInitStore).
Proof.
  destruct (initTables_stops_at_first_error postgresql.failingInitStore) as [_ Hfirst].
  apply (Hfirst
           [("InitPeerInfoTable", "initializing peer_info table");
            ("InitConnEventTable", "initializing conn_events table")]%string
           [("InitEthNodesTable", "initializing eth_nodes table");
            ("InitEthereumNodeStatus", "initializing eth_status table")]%string
           "InitIpTable"%string "initializing ips table"%string "permission denied"%string).
  - reflexivity.
  - repeat constructor.
  - reflexivity.
Defined.

Lemma NewDBClient_succeeds_iff_witness :
  (postgresql.NewDBClient false "eth2" postgresql.sampleEndpoint true
     postgresql.failingInitStore).1.1 = None /\
  (postgresql.NewDBClient false "eth2" postgresql.sampleEndpoint true
     postgresql.failingInitStore).1.2 <> None.
Proof.
  destruct (NewDBClient_succeeds_iff false "eth2" postgresql.sampleEndpoint true
              postgresql.failingInitStore) as [_ [Herror _]].
  split; [vm_compute; reflexivity |].
  apply Herror. vm_compute. reflexivity.
Defined.

Lemma persistBatchFn_error_means_witness :
  last (postgresql.calls
          (postgresql.persistBatchFn [postgresql.UpsertIpInfo postgresql.sampleIpInfo]
             postgresql.failingBeginStore).2)
  = Some postgresql.Begin.
Proof.
  destruct (persistBatchFn_error_means
              [postgresql.UpsertIpInfo postgresql.sampleIpInfo]
              postgresql.failingBeginStore
              "unable to persist batch: closed pool"%string)
    as [_ [(cause & _ & _ & Hcalls) | (Hbegin & _)]].
  - vm_compute. reflexivity.
  - rewrite Hcalls. reflexivity.
  - vm_compute in Hbegin. discriminate.
Defined.

Lemma no_empty_batch_is_sent_witness :
  exists c c',
    postgresql.clientOf postgresql.healthyStore = Some c /\
    postgresql.run
      [postgresql.PersisterRuns true; postgresql.TickerFires; postgresql.PersisterRuns true;
       postgresql.PersisterRuns true;
       postgresql.PersistToDB (postgresql.ObjUnrecognized "int");
       postgresql.TickerFires; postgresql.PersisterRuns false] c = Some c' /\
    existsb postgresql.isEmptySend (postgresql.calls (postgresql.psqlPool c')) = false /\
    postgresql.countBegin (postgresql.calls (postgresql.psqlPool c'))
    = postgresql.countBegin (postgresql.calls (postgresql.psqlPool c)).
Proof.
  eexists. eexists.
  split; [vm_compute; reflexivity |].
  split; [vm_compute; reflexivity |].
  split; [| vm_compute; reflexivity].
  match goal with
  | |- existsb _ (postgresql.calls (postgresql.psqlPool ?c')) = false =>
      apply (no_empty_batch_is_sent
               [postgresql.PersisterRuns true; postgresql.TickerFires;
                postgresql.PersisterRuns true; postgresql.PersisterRuns true;
                postgresql.PersistToDB (postgresql.ObjUnrecognized "int");
                postgresql.TickerFires; postgresql.PersisterRuns false]
               (postgresql.launchPersister
                  (postgresql.setWg 0
                     (postgresql.waitingClient
                        (postgresql.called
                           [postgresql.Connect postgresql.sampleEndpoint; postgresql.Ping]
                           postgresql.healthyStore) [])))
               c')
  end.
  - vm_compute. reflexivity.
  - vm_compute. reflexivity.
Defined.
